(** * signal_tl: piecewise-linear signals ([Sample], [Signal], [synchronize])

    A shallow embedding of [signal_tl/signal.hh] and [signal.cc].

    A C++ [double] is an IEEE 754 binary64 number, here a primitive float:
    [+], [-], [*], [/] round as the machine does, [<], [<=] and [==] are
    the IEEE comparisons (all false on NaN), division by zero gives an
    infinity or NaN.  The general theorems use the order of the numbers
    only, proved below from the specification of the primitives; where a
    theorem needs a time not to be NaN it says so.

    Failure is explicit: a C++ exception is [Throw], undefined behaviour
    (dereferencing [end()], [std::prev(begin())], [back()] of an empty
    vector) is [Undefined], and a loop that cannot advance is [Diverge]. *)

From Stdlib Require Import List Bool Arith ZArith Lia.
From Stdlib Require Import PrimFloat SpecFloat FloatOps FloatAxioms.
Import ListNotations.

(** ** Outcomes of a call *)

Inductive exn : Set :=
| invalid_argument.          (* std::invalid_argument *)

Inductive outcome (T : Type) : Type :=
| Ok (v : T)                 (* normal return *)
| Throw (e : exn)            (* a C++ exception leaves the call *)
| Undefined                  (* undefined behaviour was reached *)
| Diverge.                   (* the call does not return *)

Arguments Ok {T} v.
Arguments Throw {T} e.
Arguments Undefined {T}.
Arguments Diverge {T}.

Definition bind {T U} (m : outcome T) (k : T -> outcome U) : outcome U :=
  match m with
  | Ok v => k v
  | Throw e => Throw e
  | Undefined => Undefined
  | Diverge => Diverge
  end.

Notation "x <- m ;; k" := (bind m (fun x => k))
  (at level 61, m at next level, right associativity).

(** ** Sample *)

Record Sample : Set := mkSample {
  time : float;
  value : float;
  derivative : float
}.

(** A signal is its private member [samples], a [std::vector<Sample>]. *)
Definition Signal : Set := list Sample.

Section Code.

Local Open Scope float_scope.

(** [std::max(a, b)] is [(a < b) ? b : a]. *)
Definition std_max (a b : float) : float := if a <? b then b else a.

(** [Sample::interpolate]. *)
Definition interpolate (s : Sample) (t : float) : float :=
  value s + derivative s * (t - time s).

(** [Sample{t, v}]: the member initialiser gives [derivative = 0.0]. *)
Definition Sample2 (t v : float) : Sample := mkSample t v 0.

(** [samples.front()] and [samples.back()], [None] on an empty vector. *)
Definition front (sig : Signal) : option Sample := hd_error sig.

Fixpoint back (sig : Signal) : option Sample :=
  match sig with
  | [] => None
  | s :: r => match r with [] => Some s | _ :: _ => back r end
  end.

Definition begin_time (sig : Signal) : float :=
  match front sig with None => 0 | Some s => time s end.

Definition end_time (sig : Signal) : float :=
  match back sig with None => 0 | Some s => time s end.

(** Iterators are positions [0 .. size]; [size] is [end()]. *)
Definition deref (sig : Signal) (i : nat) : outcome Sample :=
  match nth_error sig i with Some s => Ok s | None => Undefined end.

Definition prev (sig : Signal) (i : nat) : outcome Sample :=
  match i with O => Undefined | S k => deref sig k end.

(** [std::lower_bound(begin(), end(), Sample{t, 0.0}, comp_time)] with
    [comp_time a b = a.time < b.time].  The standard asks for a range
    partitioned by [time < t] and then fixes the result: the partition
    point, the first position whose time is not less than [t].  This is
    that position, found from the left.  It stands for the call on
    partitioned ranges only: a time-sorted signal without NaN times is
    partitioned for every [t] ([lower_bound_partition]) and no other
    position meets the standard's postcondition there
    ([lower_bound_unique]).  On a range that is not partitioned (a NaN
    time followed by smaller ones) the call is undefined and a bisection
    may stop elsewhere; the general statements below about [at],
    [begin_at] and the result of [synchronize] assume partitioned
    ranges. *)
Fixpoint lower_bound (sig : Signal) (t : float) : nat :=
  match sig with
  | [] => O
  | s :: r => if time s <? t then S (lower_bound r t) else O
  end.

(** [Signal::at]. *)
Definition at_ (sig : Signal) (t : float) : outcome Sample :=
  if (t <? begin_time sig) && (end_time sig <? t) then Throw invalid_argument
  else
    it <- deref sig (lower_bound sig t) ;;
    if time it =? t then Ok it
    else Ok (mkSample t (interpolate it t) (derivative it)).

(** [Signal::push_back(Sample)].  [patched last sample] is the last sample
    after [last.derivative = (sample.value - v) / (sample.time - t)], and
    [appended sample] is [Sample{sample.time, sample.value, 0.0}]. *)
Definition patched (last sample : Sample) : Sample :=
  let t := time last in
  let v := value last in
  mkSample t v ((value sample - v) / (time sample - t)).

Definition appended (sample : Sample) : Sample :=
  mkSample (time sample) (value sample) 0.

Definition push_back (sig : Signal) (sample : Sample) : outcome Signal :=
  match back sig with
  | None => Ok (sig ++ [appended sample])
  | Some last =>
      if time sample <? end_time sig then Throw invalid_argument
      else Ok (removelast sig ++ [patched last sample] ++ [appended sample])
  end.

(** [Signal::push_back(double time, double value)]. *)
Definition push_back2 (sig : Signal) (t v : float) : outcome Signal :=
  push_back sig (mkSample t v 0).

(** The loop [for (s : data) this->push_back(s)] shared by the copy
    constructor, the sequence constructor and the iterator constructor. *)
Fixpoint push_all (sig : Signal) (data : list Sample) : outcome Signal :=
  match data with
  | [] => Ok sig
  | s :: r => sig' <- push_back sig s ;; push_all sig' r
  end.

(** [Signal(const T& data)], [Signal(const Signal&)], [Signal(start, end)]. *)
Definition Signal_of (data : list Sample) : outcome Signal :=
  push_all [] data.

(** [Signal(points, times)]. *)
Fixpoint push_points (sig : Signal) (points times : list float) : outcome Signal :=
  match points, times with
  | p :: ps, t :: ts => sig' <- push_back2 sig t p ;; push_points sig' ps ts
  | _, _ => Ok sig
  end.

Definition Signal_of_arrays (points times : list float) : outcome Signal :=
  if negb (length points =? length times)%nat then Throw invalid_argument
  else push_points [] points times.

(** [Signal::simplify]. *)
Fixpoint simplify_loop (sig : Signal) (rest : list Sample) : outcome Signal :=
  match rest with
  | [] => Ok sig
  | s :: r =>
      match back sig with
      | None => sig' <- push_back sig s ;; simplify_loop sig' r
      | Some new_s =>
          if negb (interpolate new_s (time s) =? value s)
             || negb (derivative new_s =? derivative s)
          then sig' <- push_back sig s ;; simplify_loop sig' r
          else simplify_loop sig r
      end
  end.

Definition simplify (x : Signal) : outcome Signal :=
  sig <- simplify_loop [] x ;;
  if negb (end_time x =? end_time sig) then
    match back x with
    | None => Undefined
    | Some b => push_back sig b
    end
  else Ok sig.

(** [Signal::resize]: the loop over [i], with [std::prev(i)] carried along
    ([None] at [begin()]) and [std::next(i)] read from the rest. *)
Fixpoint resize_loop (start end_ : float) (before : option Sample)
    (rest : list Sample) (sig : Signal) : outcome Signal :=
  match rest with
  | [] => Ok sig
  | i :: tl =>
      let t := time i in
      if match tl with [] => false | nxt :: _ => start <? time nxt end then
        sig' <- push_back sig (Sample2 start (interpolate i start)) ;;
        resize_loop start end_ (Some i) tl sig'
      else if (start <=? t) && (t <=? end_) then
        sig' <- push_back sig i ;;
        resize_loop start end_ (Some i) tl sig'
      else if end_ <? t then
        match before with
        | Some p =>
            if time p <? end_ then
              sig' <- push_back sig (Sample2 end_ (interpolate p end_)) ;;
              resize_loop start end_ (Some i) tl sig'
            else Ok sig
        | None => Ok sig
        end
      else resize_loop start end_ (Some i) tl sig
  end.

Definition resize (x : Signal) (start end_ fill : float) : outcome Signal :=
  sig <- (if start <? begin_time x
          then push_back [] (mkSample start fill 0)
          else Ok []) ;;
  resize_loop start end_ None x sig.

(** [s.time += dt] over all samples. *)
Definition shift_times (dt : float) (sig : Signal) : Signal :=
  map (fun s => mkSample (time s + dt) (value s) (derivative s)) sig.

(** [Signal::shift]: [std::make_shared<Signal>(this->samples)] runs the
    sequence constructor on the vector. *)
Definition shift (x : Signal) (dt : float) : outcome Signal :=
  sig <- Signal_of x ;;
  Ok (shift_times dt sig).

(** [Signal::resize_shift]. *)
Definition resize_shift (x : Signal) (start end_ fill dt : float) : outcome Signal :=
  out <- resize x start end_ fill ;;
  Ok (shift_times dt out).

(** [synchronize]: the merging loop.  [i] and [j] are the two cursors; the
    recursion is on [fuel], at most [size x + size y] iterations advance a
    cursor.  When the two times compare neither [==], [<] nor [>] no
    cursor moves and the [while] never ends. *)
Fixpoint sync_loop (fuel : nat) (x y : Signal) (i j : nat)
    (xv yv : list Sample) : outcome (list Sample * list Sample) :=
  match fuel with
  | O => Diverge
  | S fuel' =>
      match nth_error x i, nth_error y j with
      | Some si, Some sj =>
          if time si =? time sj then
            sync_loop fuel' x y (S i) (S j) (xv ++ [si]) (yv ++ [sj])
          else if time si <? time sj then
            pj <- prev y j ;;
            sync_loop fuel' x y (S i) j
              (xv ++ [si]) (yv ++ [Sample2 (time si) (interpolate pj (time si))])
          else if time sj <? time si then
            pi <- prev x i ;;
            sync_loop fuel' x y i (S j)
              (xv ++ [Sample2 (time sj) (interpolate pi (time sj))]) (yv ++ [sj])
          else Diverge
      | _, _ => Ok (xv, yv)
      end
  end.

(** [synchronize].  ([end_time] and [n] of the source are computed and
    never read.) *)
Definition synchronize (x y : Signal) : outcome (Signal * Signal) :=
  let begin_time := std_max (begin_time x) (begin_time y) in
  let i := lower_bound x begin_time in
  si <- deref x i ;;
  xv <- (if (begin_time <? time si) && negb (i =? 0)%nat then
           p <- prev x i ;;
           Ok [mkSample begin_time (interpolate p begin_time) (derivative p)]
         else Ok []) ;;
  let j := lower_bound y begin_time in
  sj <- deref y j ;;
  yv <- (if (begin_time <? time sj) && negb (j =? 0)%nat then
           p <- prev y j ;;
           q <- prev x i ;;
           Ok [mkSample begin_time (interpolate p begin_time) (derivative q)]
         else Ok []) ;;
  xy <- sync_loop (S (length x + length y)) x y i j xv yv ;;
  let (xv, yv) := xy in
  xb <- match back xv with Some s => Ok s | None => Undefined end ;;
  yb <- match back yv with Some s => Ok s | None => Undefined end ;;
  let yv := if time yb <? time xb
            then yv ++ [Sample2 (time xb) (interpolate yb (time xb))] else yv in
  yb <- match back yv with Some s => Ok s | None => Undefined end ;;
  let xv := if time xb <? time yb
            then xv ++ [Sample2 (time yb) (interpolate xb (time yb))] else xv in
  x' <- Signal_of xv ;;
  y' <- Signal_of yv ;;
  Ok (x', y').

End Code.

(** ** Observations on signals *)

(** A binary64 datum that is not NaN. *)
Definition is_number (f : spec_float) : bool :=
  match f with S754_nan => false | _ => true end.

Definition times (sig : Signal) : list float := map time sig.

(** The breakpoints of a signal: its (time, value) pairs. *)
Definition point (s : Sample) : float * float := (time s, value s).
Definition points (sig : Signal) : list (float * float) := map point sig.

(** [linked R sig]: every sample is related by [R] to its successor, the
    last one to [None]. *)
Fixpoint linked (R : Sample -> option Sample -> Prop) (sig : Signal) : Prop :=
  match sig with
  | [] => True
  | s :: r => R s (hd_error r) /\ linked R r
  end.

(** What [push_back] enforces: no sample is timed before its predecessor. *)
Definition time_sorted : Signal -> Prop :=
  linked (fun s o => match o with
                     | Some n => (time n <? time s)%float = false
                     | None => True
                     end).

(** What the documentation asks: times strictly increase. *)
Definition time_increasing : Signal -> Prop :=
  linked (fun s o => match o with
                     | Some n => (time s <? time n)%float = true
                     | None => True
                     end).

(** No time of the signal is NaN. *)
Definition times_are_numbers (sig : Signal) : Prop :=
  Forall (fun s => is_nan (time s) = false) sig.

(** The derivative cache: the slope towards the successor, [0.0] on the
    last sample.  The cached value is the very binary64 value of the
    quotient: both are NaN, or they are equal for [==] and have the same
    sign ([+0] and [-0], which [==] identifies, are told apart). *)
Definition slope_cached : Signal -> Prop :=
  linked (fun s o => match o with
                     | Some n => derivative s =
                                 ((value n - value s) / (time n - time s))%float
                     | None => derivative s = 0%float
                     end).

(** Adding [dt] to two neighbouring times leaves their difference the very
    binary64 value it was (both NaN, or equal for [==] with the same sign:
    a difference [-0] that becomes [+0] has changed).  It does in exact
    arithmetic, it need not when [t + dt] is rounded. *)
Fixpoint exact_steps (dt : float) (ts : list float) : Prop :=
  match ts with
  | [] => True
  | a :: r =>
      match r with
      | [] => True
      | b :: _ => ((b + dt) - (a + dt) = b - a)%float
      end /\ exact_steps dt r
  end.

Definition shift_exact (dt : float) (sig : Signal) : Prop :=
  exact_steps dt (times sig).

(** The public ways to obtain a signal.  [shift_ok dt sig] is a condition on
    the steps that shift the times of [sig] by [dt]. *)
Inductive constructed_with (shift_ok : float -> Signal -> Prop) : Signal -> Prop :=
| by_default : constructed_with shift_ok []
| by_push_back sig s sig' :
    constructed_with shift_ok sig -> push_back sig s = Ok sig' ->
    constructed_with shift_ok sig'
| by_sequence data sig :
    Signal_of data = Ok sig -> constructed_with shift_ok sig
| by_arrays points times sig :
    Signal_of_arrays points times = Ok sig -> constructed_with shift_ok sig
| by_simplify x sig :
    constructed_with shift_ok x -> simplify x = Ok sig -> constructed_with shift_ok sig
| by_resize x start end_ fill sig :
    constructed_with shift_ok x -> resize x start end_ fill = Ok sig ->
    constructed_with shift_ok sig
| by_shift x dt sig :
    constructed_with shift_ok x -> shift_ok dt x -> shift x dt = Ok sig ->
    constructed_with shift_ok sig
| by_resize_shift x start end_ fill dt out sig :
    constructed_with shift_ok x -> resize x start end_ fill = Ok out -> shift_ok dt out ->
    resize_shift x start end_ fill dt = Ok sig -> constructed_with shift_ok sig
| by_synchronize_fst x y x' y' :
    constructed_with shift_ok x -> constructed_with shift_ok y ->
    synchronize x y = Ok (x', y') -> constructed_with shift_ok x'
| by_synchronize_snd x y x' y' :
    constructed_with shift_ok x -> constructed_with shift_ok y ->
    synchronize x y = Ok (x', y') -> constructed_with shift_ok y'.

(** Every public construction path. *)
Definition constructed : Signal -> Prop := constructed_with (fun _ _ => True).

(** The paths on which every shift of the times is exact. *)
Definition constructed_exactly : Signal -> Prop := constructed_with shift_exact.

(** The paths that never shift the times. *)
Definition constructed_unshifted : Signal -> Prop := constructed_with (fun _ _ => False).

(** ** Signals of the scenarios

    Every number below is a small dyadic rational, so each operation on
    them is exact unless it divides by zero or adds [2^53]. *)

(** [push_back(0, 0)] then [push_back(2, 4)]. *)
Definition ramp : Signal :=
  [mkSample 0 0 2; mkSample 2 4 0]%float.

(** [ramp.resize(-1, 3, 5)] and [ramp.shift(1)]. *)
Definition ramp_resized : Signal :=
  [mkSample (-1) 5 neg_infinity; mkSample (-1) (-2) 2; mkSample 2 4 0]%float.

Definition ramp_shifted : Signal :=
  [mkSample 1 0 2; mkSample 3 4 0]%float.

(** [x = [(0,0), (1,1), (2,0)]] and [y = [(0,1), (2,1)]]. *)
Definition triangle : Signal :=
  [mkSample 0 0 1; mkSample 1 1 (-1); mkSample 2 0 0]%float.

Definition level : Signal :=
  [mkSample 0 1 0; mkSample 2 1 0]%float.

Definition level_synchronized : Signal :=
  [mkSample 0 1 0; mkSample 1 1 0; mkSample 2 1 0]%float.

(** [triangle.resize(0, 2, 7)]. *)
Definition triangle_resized : Signal :=
  [mkSample 0 0 infinity; mkSample 0 2 (-1); mkSample 2 0 0]%float.

(** Two signals with the overlapping domains [[0, 3]] and [[1, 2]], and the
    first output of [synchronize] on them. *)
Definition wide : Signal :=
  [mkSample 0 0 0; mkSample 3 0 0]%float.

Definition narrow : Signal :=
  [mkSample 1 1 0; mkSample 2 1 0]%float.

Definition wide_synchronized : Signal :=
  [mkSample 1 0 nan; mkSample 1 0 0; mkSample 2 0 0]%float.

(** Two signals with the overlapping domains [[2, 3]] and [[0, 5]]. *)
Definition late : Signal :=
  [mkSample 2 0 0; mkSample 3 0 0]%float.

Definition early : Signal :=
  [mkSample 0 0 0; mkSample 1 0 1.25; mkSample 5 5 0]%float.

(** Constant on [[0, 2]], then rising to 5 at time 3; and its [simplify]. *)
Definition plateau : Signal :=
  [mkSample 0 1 0; mkSample 1 1 0; mkSample 2 1 4; mkSample 3 5 0]%float.

Definition plateau_simplified : Signal :=
  [mkSample 0 1 0; mkSample 2 1 4; mkSample 3 5 0]%float.

(** Two samples at the same time. *)
Definition twice : Signal :=
  [mkSample 0 0 infinity; mkSample 0 1 0]%float.

(** The slope 1 from time 0 to time 1, and its shift by [2^53]: both times
    round to [2^53]. *)
Definition two_to_53 : float := 9007199254740992%float.

Definition unit_ramp : Signal :=
  [mkSample 0 0 1; mkSample 1 1 0]%float.

Definition unit_ramp_shifted : Signal :=
  [mkSample two_to_53 0 1; mkSample two_to_53 1 0]%float.

(** ** More of the interface: sample operators and position markers *)

Section MoreCode.

Local Open Scope float_scope.

(** [operator<], [operator>], [operator<=] and [operator>=] on samples:
    [<] compares the values, the other three are written from it. *)
Definition Sample_lt (lhs rhs : Sample) : bool := value lhs <? value rhs.
Definition Sample_gt (lhs rhs : Sample) : bool := Sample_lt rhs lhs.
Definition Sample_le (lhs rhs : Sample) : bool := negb (Sample_gt lhs rhs).
Definition Sample_ge (lhs rhs : Sample) : bool := negb (Sample_lt lhs rhs).


(** [Signal::begin_at]: [begin()] when [begin_time() >= s], else the
    result of [std::lower_bound]. *)
Definition begin_at (sig : Signal) (s : float) : nat :=
  if s <=? begin_time sig then O else lower_bound sig s.

(** [Signal::end_at]: [end()] when [end_time() <= t]; else the loop
    [while (it->time > t) it = std::prev(it)] from [it = end()], then
    [std::next(it)]. *)
Fixpoint end_at_loop (fuel : nat) (sig : Signal) (t : float) (it : nat) : outcome nat :=
  match fuel with
  | O => Diverge
  | S fuel' =>
      s <- deref sig it ;;
      if t <? time s then
        match it with
        | O => Undefined
        | S k => end_at_loop fuel' sig t k
        end
      else Ok (S it)
  end.

Definition end_at (sig : Signal) (t : float) : outcome nat :=
  if end_time sig <=? t then Ok (length sig)
  else end_at_loop (S (length sig)) sig t (length sig).

(** The samples [Sample{times[i], points[i], 0.0}] that [Signal(points,
    times)] passes to [push_back]. *)
Definition samples_of_arrays (points times : list float) : list Sample :=
  map (fun tp => mkSample (fst tp) (snd tp) 0) (combine times points).

(** A time [resize] may give to a sample. *)
Definition confined (start end_ t : float) : Prop :=
  t = start \/ t = end_ \/ (start <=? t) && (t <=? end_) = true.

(** Timed [start], for [==]. *)
Definition at_start (start t : float) : Prop := (t =? start) = true.

(** Two samples timed the same for [==]. *)
Definition same_time (a b : Sample) : Prop := (time a =? time b) = true.

End MoreCode.

(** ** The order of binary64 numbers

    Read off the specification [SFcompare] of the primitive comparisons. *)

Lemma Pos_compare_cont_spec (m1 m2 : positive) :
  CompareSpec (m1 = m2) (Pos.lt m1 m2) (Pos.lt m2 m1) (Pos.compare_cont Eq m1 m2).
Proof. exact (Pos.compare_spec m1 m2). Qed.

Ltac cmp_cases :=
  repeat match goal with
  | |- context [Z.compare ?a ?b] => destruct (Z.compare_spec a b); subst
  | H : context [Z.compare ?a ?b] |- _ => destruct (Z.compare_spec a b); subst
  | |- context [Pos.compare_cont Eq ?a ?b] =>
      destruct (Pos_compare_cont_spec a b); subst
  | H : context [Pos.compare_cont Eq ?a ?b] |- _ =>
      destruct (Pos_compare_cont_spec a b); subst
  end; simpl in *; try congruence; try lia.

Ltac by_float_cases :=
  unfold SFltb, SFleb, SFeqb, SFcompare;
  repeat match goal with s : bool |- _ => destruct s end;
  simpl; try congruence; cmp_cases.

Lemma SFltb_irrefl a : SFltb a a = false.
Proof. destruct a; by_float_cases. Qed.

Lemma SFltb_trans a b c : SFltb a b = true -> SFltb b c = true -> SFltb a c = true.
Proof. destruct a, b, c; by_float_cases. Qed.

Lemma SFltb_neg_trans a b c :
  is_number b = true -> SFltb b a = false -> SFltb c b = false -> SFltb c a = false.
Proof. destruct a, b, c; by_float_cases. Qed.

Lemma SFltb_leb a b : SFltb a b = true -> SFleb a b = true.
Proof. unfold SFltb, SFleb. destruct (SFcompare a b) as [[]|]; congruence. Qed.

Lemma SFeqb_number a : SFeqb a a = is_number a.
Proof. destruct a; by_float_cases. Qed.

Lemma SFltb_number a b : SFltb a b = true -> is_number a = true /\ is_number b = true.
Proof. destruct a, b; unfold SFltb, SFcompare; simpl; try congruence; auto. Qed.

Lemma SF_trichotomy a b :
  is_number a = true -> is_number b = true ->
  SFeqb a b = false -> SFltb a b = false -> SFltb b a = true.
Proof. destruct a, b; by_float_cases. Qed.

Lemma SFltb_neq a b : SFltb a b = true -> SFeqb b a = false.
Proof. destruct a, b; by_float_cases. Qed.

Section FloatOrder.

Local Open Scope float_scope.

Lemma is_nan_number a : is_nan a = negb (is_number (Prim2SF a)).
Proof. unfold is_nan. rewrite eqb_spec, SFeqb_number. reflexivity. Qed.

Lemma ltb_irrefl a : (a <? a) = false.
Proof. rewrite ltb_spec. apply SFltb_irrefl. Qed.

Lemma ltb_trans a b c : (a <? b) = true -> (b <? c) = true -> (a <? c) = true.
Proof. rewrite !ltb_spec. apply SFltb_trans. Qed.

(** [a <= b] and [b <= c] give [a <= c] when [b] is a number. *)
Lemma nlt_trans a b c :
  is_nan b = false -> (b <? a) = false -> (c <? b) = false -> (c <? a) = false.
Proof.
  rewrite is_nan_number, !ltb_spec. intro N. apply SFltb_neg_trans.
  destruct (is_number (Prim2SF b)); [reflexivity|discriminate].
Qed.

Lemma ltb_leb a b : (a <? b) = true -> (a <=? b) = true.
Proof. rewrite ltb_spec, leb_spec. apply SFltb_leb. Qed.

Lemma ltb_numbers a b : (a <? b) = true -> is_nan a = false /\ is_nan b = false.
Proof.
  rewrite ltb_spec, !is_nan_number. intro L.
  destruct (SFltb_number _ _ L) as (-> & ->). auto.
Qed.

Lemma eqb_refl a : is_nan a = false -> (a =? a) = true.
Proof. unfold is_nan. destruct (a =? a); [reflexivity|discriminate]. Qed.

Lemma ltb_asym a b : (a <? b) = true -> (b <? a) = false.
Proof.
  intro ab. destruct (b <? a) eqn:ba; [|reflexivity].
  rewrite <- (ltb_irrefl a). symmetry. exact (ltb_trans _ _ _ ab ba).
Qed.

(** [a < b <= c] gives [a < c] when [c] is a number. *)
Lemma lt_le_trans a b c :
  is_nan c = false -> (a <? b) = true -> (c <? b) = false -> (a <? c) = true.
Proof.
  intros N ab bc. destruct (a <? c) eqn:ac; [reflexivity|].
  rewrite (nlt_trans _ _ _ N bc ac) in ab. discriminate.
Qed.

(** [a <= b < c] gives [a < c] when [a] is a number. *)
Lemma le_lt_trans a b c :
  is_nan a = false -> (b <? a) = false -> (b <? c) = true -> (a <? c) = true.
Proof.
  intros N ab bc. destruct (a <? c) eqn:ac; [reflexivity|].
  rewrite (nlt_trans _ _ _ N ac ab) in bc. discriminate.
Qed.

Lemma ltb_neq a b : (a <? b) = true -> (b =? a) = false.
Proof. rewrite ltb_spec, eqb_spec. apply SFltb_neq. Qed.

(** Two numbers are equal or one is less than the other. *)
Lemma trichotomy (a b : float) :
  is_nan a = false -> is_nan b = false ->
  (a =? b) = false -> (a <? b) = false -> (b <? a) = true.
Proof.
  rewrite !is_nan_number, eqb_spec, !ltb_spec. intros Na Nb.
  apply SF_trichotomy.
  - destruct (is_number (Prim2SF a)); [reflexivity|discriminate].
  - destruct (is_number (Prim2SF b)); [reflexivity|discriminate].
Qed.

End FloatOrder.

(** ** Basic facts on the vector operations *)

Lemma bind_Ok {T U} (m : outcome T) (k : T -> outcome U) (r : U) :
  bind m k = Ok r -> exists v, m = Ok v /\ k v = Ok r.
Proof. destruct m; simpl; intro E; try discriminate. eauto. Qed.

Ltac bind_inv E :=
  let v := fresh "g" in
  let E1 := fresh "Eg" in
  let E2 := fresh "Ek" in
  apply bind_Ok in E; destruct E as (v & E1 & E2).

Lemma back_snoc (l : Signal) (a : Sample) : back (l ++ [a]) = Some a.
Proof.
  induction l as [|b l IH]; [reflexivity|].
  simpl. destruct (l ++ [a]) eqn:E; [destruct l; discriminate|exact IH].
Qed.

Lemma back_inv (sig : Signal) (a : Sample) :
  back sig = Some a -> exists l, sig = l ++ [a].
Proof.
  induction sig as [|b r IH]; [discriminate|].
  simpl. destruct r as [|c r'].
  - intro E. injection E as ->. exists []. reflexivity.
  - intro E. destruct (IH E) as (l & ->). exists (b :: l). reflexivity.
Qed.

Lemma back_None (sig : Signal) : back sig = None -> sig = [].
Proof.
  induction sig as [|b r IH]; [reflexivity|].
  simpl. destruct r; [discriminate|]. intro E. specialize (IH E). discriminate.
Qed.

Lemma back_In (sig : Signal) (a : Sample) : back sig = Some a -> In a sig.
Proof.
  intro B. destruct (back_inv _ _ B) as (l & ->). apply in_or_app. right. left. reflexivity.
Qed.

Lemma back_nth (sig : Signal) (s : Sample) :
  back sig = Some s ->
  nth_error sig (length sig - 1) = Some s /\ nth_error sig (S (length sig - 1)) = None.
Proof.
  intro B. destruct (back_inv _ _ B) as (l & ->).
  assert (L : length (l ++ [s]) - 1 = length l) by (rewrite length_app; simpl; lia).
  rewrite L. split.
  - rewrite nth_error_app2 by lia. rewrite Nat.sub_diag. reflexivity.
  - apply nth_error_None. rewrite length_app. simpl. lia.
Qed.

Lemma end_time_snoc (l : Signal) (a : Sample) : end_time (l ++ [a]) = time a.
Proof. unfold end_time. rewrite back_snoc. reflexivity. Qed.

Lemma end_time_back (sig : Signal) (s : Sample) :
  back sig = Some s -> end_time sig = time s.
Proof. unfold end_time. intros ->. reflexivity. Qed.

Lemma push_back_nil (s : Sample) : push_back [] s = Ok [appended s].
Proof. reflexivity. Qed.

Lemma push_back_snoc (l : Signal) (a s : Sample) :
  push_back (l ++ [a]) s =
  if (time s <? time a)%float then Throw invalid_argument
  else Ok (l ++ [patched a s; appended s]).
Proof.
  unfold push_back. rewrite back_snoc, end_time_snoc, removelast_last. reflexivity.
Qed.

Lemma push_back_inv (sig sig' : Signal) (s : Sample) :
  push_back sig s = Ok sig' ->
  (sig = [] /\ sig' = [appended s]) \/
  (exists l a, sig = l ++ [a] /\ (time s <? time a)%float = false /\
     sig' = l ++ [patched a s; appended s]).
Proof.
  destruct (back sig) as [a|] eqn:B.
  - destruct (back_inv _ _ B) as (l & ->). rewrite push_back_snoc.
    destruct (time s <? time a)%float eqn:L; [discriminate|].
    intro E. injection E as <-. right. exists l, a. auto.
  - apply back_None in B. subst sig. rewrite push_back_nil.
    intro E. injection E as <-. left. auto.
Qed.

(** [push_back] appends one breakpoint and changes no earlier one. *)
Lemma points_push_back (sig sig' : Signal) (s : Sample) :
  push_back sig s = Ok sig' -> points sig' = points sig ++ [point s].
Proof.
  intro E. destruct (push_back_inv _ _ _ E) as [(-> & ->)|(l & a & -> & _ & ->)].
  - reflexivity.
  - unfold points. rewrite !map_app, <- app_assoc. reflexivity.
Qed.

Lemma times_points (sig : Signal) : times sig = map fst (points sig).
Proof. unfold times, points. rewrite map_map. reflexivity. Qed.

Lemma times_push_back (sig sig' : Signal) (s : Sample) :
  push_back sig s = Ok sig' -> times sig' = times sig ++ [time s].
Proof.
  intro E. rewrite !times_points, (points_push_back _ _ _ E), map_app. reflexivity.
Qed.

Lemma back_push_back (sig sig' : Signal) (s : Sample) :
  push_back sig s = Ok sig' -> back sig' = Some (appended s).
Proof.
  intro E. destruct (push_back_inv _ _ _ E) as [(-> & ->)|(l & a & -> & _ & ->)].
  - reflexivity.
  - change (l ++ [?x; ?y]) with (l ++ [x] ++ [y]). rewrite app_assoc. apply back_snoc.
Qed.

(** [push_back] returns on a non-empty signal when the sample is not timed
    before [end_time]. *)
Lemma push_back_at_end (sig : Signal) (s : Sample) :
  sig <> [] -> (time s <? end_time sig)%float = false ->
  exists sig', push_back sig s = Ok sig'.
Proof.
  intros N L. destruct (back sig) as [a|] eqn:B.
  - destruct (back_inv _ _ B) as (l & ->).
    rewrite end_time_snoc in L. rewrite push_back_snoc, L. eauto.
  - apply back_None in B. contradiction.
Qed.

(** *** Relations between neighbours survive [push_back] *)

Section Linked.

Variable R : Sample -> option Sample -> Prop.

(** [R] reads only the breakpoint of the successor. *)
Hypothesis R_point : forall x a a', point a = point a' -> R x (Some a) -> R x (Some a').

Lemma linked_snoc (l : Signal) (a a' n : Sample) :
  linked R (l ++ [a]) -> point a = point a' -> R a' (Some n) -> R n None ->
  linked R (l ++ [a'; n]).
Proof.
  intros L P Ra Rn. induction l as [|b l IH]; simpl in *.
  - auto.
  - destruct L as (Rb & L). split; [|exact (IH L)].
    destruct l; simpl in *; [exact (R_point _ _ _ P Rb)|exact Rb].
Qed.

Hypothesis R_patch : forall a s, (time s <? time a)%float = false ->
  R (patched a s) (Some (appended s)).

Hypothesis R_last : forall s, R (appended s) None.

Lemma linked_push_back (sig sig' : Signal) (s : Sample) :
  linked R sig -> push_back sig s = Ok sig' -> linked R sig'.
Proof.
  intros L E. destruct (push_back_inv _ _ _ E) as [(-> & ->)|(l & a & -> & T & ->)].
  - simpl. auto.
  - apply linked_snoc with (a := a); auto.
Qed.

End Linked.

Lemma time_sorted_push_back (sig sig' : Signal) (s : Sample) :
  time_sorted sig -> push_back sig s = Ok sig' -> time_sorted sig'.
Proof.
  apply linked_push_back.
  - intros x a a' P. unfold point in P. injection P as T _. rewrite T. auto.
  - intros a s0 L. exact L.
  - intros. exact I.
Qed.

Lemma slope_cached_push_back (sig sig' : Signal) (s : Sample) :
  slope_cached sig -> push_back sig s = Ok sig' -> slope_cached sig'.
Proof.
  apply linked_push_back.
  - intros x a a' P. unfold point in P. injection P as T V. rewrite T, V. auto.
  - intros a s0 _. reflexivity.
  - intros. reflexivity.
Qed.

(** *** Reading [linked] by position *)

Lemma linked_nth (R : Sample -> option Sample -> Prop) (sig : Signal) :
  linked R sig ->
  forall i s, nth_error sig i = Some s -> R s (nth_error sig (S i)).
Proof.
  induction sig as [|a r IH]; intros L i s E.
  - destruct i; discriminate.
  - destruct L as (Ra & L). destruct i as [|i]; simpl in E.
    + injection E as <-. simpl. destruct r; exact Ra.
    + exact (IH L i s E).
Qed.

Lemma linked_tail (R : Sample -> option Sample -> Prop) (a : Sample) (r : Signal) :
  linked R (a :: r) -> linked R r.
Proof. intros (_ & L). exact L. Qed.

Lemma times_push_all (data : list Sample) :
  forall sig r, push_all sig data = Ok r -> times r = times sig ++ times data.
Proof.
  induction data as [|s data IH]; simpl; intros sig r E.
  - injection E as <-. rewrite app_nil_r. reflexivity.
  - bind_inv E. rewrite (IH _ _ Ek), (times_push_back _ _ _ Eg), <- app_assoc. reflexivity.
Qed.

Lemma times_Signal_of (data : list Sample) (r : Signal) :
  Signal_of data = Ok r -> times r = times data.
Proof. intro E. exact (times_push_all _ _ _ E). Qed.

(** ** Properties kept by every operation that builds with [push_back] *)

Section Preserved.

Variable P : Signal -> Prop.

Hypothesis P_nil : P [].

Hypothesis P_push : forall sig s sig', P sig -> push_back sig s = Ok sig' -> P sig'.

Lemma push_all_preserves (data : list Sample) :
  forall sig r, P sig -> push_all sig data = Ok r -> P r.
Proof.
  induction data as [|s data IH]; simpl; intros sig r Ps E.
  - injection E as <-. exact Ps.
  - bind_inv E. eauto.
Qed.

Lemma Signal_of_preserves (data : list Sample) (r : Signal) :
  Signal_of data = Ok r -> P r.
Proof. apply push_all_preserves, P_nil. Qed.

Lemma push_points_preserves (points times : list float) :
  forall sig r, P sig -> push_points sig points times = Ok r -> P r.
Proof.
  revert times. induction points as [|p points IH]; intros [|t times] sig r Ps E;
    simpl in E; try (injection E as <-; exact Ps).
  bind_inv E. eapply IH; [|exact Ek]. eapply P_push; [exact Ps|exact Eg].
Qed.

Lemma Signal_of_arrays_preserves (points times : list float) (r : Signal) :
  Signal_of_arrays points times = Ok r -> P r.
Proof.
  unfold Signal_of_arrays. destruct (negb _); [discriminate|].
  apply push_points_preserves, P_nil.
Qed.

Lemma simplify_loop_preserves (rest : list Sample) :
  forall sig r, P sig -> simplify_loop sig rest = Ok r -> P r.
Proof.
  induction rest as [|s rest IH]; simpl; intros sig r Ps E.
  - injection E as <-. exact Ps.
  - destruct (back sig) as [new_s|].
    + destruct (_ || _); [bind_inv E|]; eauto.
    + bind_inv E. eauto.
Qed.

Lemma simplify_preserves (x r : Signal) : simplify x = Ok r -> P r.
Proof.
  unfold simplify. intro E. bind_inv E.
  apply simplify_loop_preserves in Eg; [|exact P_nil].
  destruct (negb _).
  - destruct (back x); [eauto|discriminate].
  - injection Ek as <-. exact Eg.
Qed.

Lemma resize_loop_preserves (start end_ : float) (rest : list Sample) :
  forall before sig r, P sig -> resize_loop start end_ before rest sig = Ok r -> P r.
Proof.
  induction rest as [|i tl IH]; simpl; intros before sig r Ps E.
  - injection E as <-. exact Ps.
  - destruct (match tl with [] => false | nxt :: _ => (start <? time nxt)%float end).
    { bind_inv E. eauto. }
    destruct ((start <=? time i)%float && (time i <=? end_)%float).
    { bind_inv E. eauto. }
    destruct (end_ <? time i)%float; [|eauto].
    destruct before as [p|]; [|injection E as <-; exact Ps].
    destruct (time p <? end_)%float; [|injection E as <-; exact Ps].
    bind_inv E. eauto.
Qed.

Lemma resize_preserves (x : Signal) (start end_ fill : float) (r : Signal) :
  resize x start end_ fill = Ok r -> P r.
Proof.
  unfold resize. intro E. bind_inv E.
  eapply resize_loop_preserves; [|exact Ek].
  destruct (start <? begin_time x)%float.
  - eapply P_push; [exact P_nil|exact Eg].
  - injection Eg as <-. exact P_nil.
Qed.

Lemma synchronize_preserves (x y x' y' : Signal) :
  synchronize x y = Ok (x', y') -> P x' /\ P y'.
Proof.
  unfold synchronize. intro E.
  repeat (let v := fresh "g" in let E1 := fresh "Eg" in
          apply bind_Ok in E; destruct E as (v & E1 & E)).
  destruct g3 as (xv, yv).
  repeat (let v := fresh "g" in let E1 := fresh "Eg" in
          apply bind_Ok in E; destruct E as (v & E1 & E)).
  inversion E; subst.
  split; eapply Signal_of_preserves; eassumption.
Qed.

(** The steps that shift the times, under the condition [shift_ok]. *)

Variable shift_ok : float -> Signal -> Prop.

Hypothesis P_shift : forall x dt g,
  shift_ok dt x -> times g = times x -> P g -> P (shift_times dt g).

Lemma shift_preserves (x : Signal) (dt : float) (r : Signal) :
  shift_ok dt x -> shift x dt = Ok r -> P r.
Proof.
  unfold shift. intros A E. bind_inv E. injection Ek as <-.
  apply P_shift with (x := x); [exact A|exact (times_Signal_of _ _ Eg)|].
  eapply Signal_of_preserves. exact Eg.
Qed.

Lemma resize_shift_preserves (x : Signal) (start end_ fill dt : float) (out r : Signal) :
  resize x start end_ fill = Ok out -> shift_ok dt out ->
  resize_shift x start end_ fill dt = Ok r -> P r.
Proof.
  unfold resize_shift. intros Eo A E. rewrite Eo in E. injection E as <-.
  apply P_shift with (x := out); [exact A|reflexivity|].
  eapply resize_preserves. exact Eo.
Qed.

(** Every signal constructed under [shift_ok] satisfies [P]. *)
Lemma constructed_preserves (sig : Signal) : constructed_with shift_ok sig -> P sig.
Proof.
  induction 1.
  - exact P_nil.
  - eapply P_push; eassumption.
  - eapply Signal_of_preserves; eassumption.
  - eapply Signal_of_arrays_preserves; eassumption.
  - eapply simplify_preserves; eassumption.
  - eapply resize_preserves; eassumption.
  - eapply shift_preserves; eassumption.
  - eapply resize_shift_preserves; eassumption.
  - eapply proj1, synchronize_preserves; eassumption.
  - eapply proj2, synchronize_preserves; eassumption.
Qed.

End Preserved.

(** Every signal constructed without shifting the times is time-sorted:
    [push_back] refuses the samples timed before the last one. *)
Lemma time_sorted_constructed (sig : Signal) :
  constructed_unshifted sig -> time_sorted sig.
Proof.
  apply constructed_preserves.
  - exact I.
  - intros g s g'. apply time_sorted_push_back.
  - intros x dt g [].
Qed.

(** ** The derivative cache (C6) *)

Lemma slope_cached_shift_times (dt : float) (g : Signal) :
  shift_exact dt g -> slope_cached g -> slope_cached (shift_times dt g).
Proof.
  unfold shift_exact, slope_cached.
  induction g as [|a r IH]; simpl; [auto|].
  intros (Ea & Er) (Ca & Cr). split; [|exact (IH Er Cr)].
  destruct r as [|b r']; simpl in *; [exact Ca|].
  rewrite Ea. exact Ca.
Qed.

Lemma slope_cached_constructed (sig : Signal) :
  constructed_exactly sig -> slope_cached sig.
Proof.
  apply constructed_preserves.
  - exact I.
  - intros g s g'. apply slope_cached_push_back.
  - intros x dt g A T. apply slope_cached_shift_times.
    unfold shift_exact in *. rewrite T. exact A.
Qed.

(** C6, for exact shifts.  In every signal obtained through the public
    operations (the constructors, [push_back], [simplify], [resize],
    [shift], [resize_shift], [synchronize]), provided each shift of the
    times by [dt] left every difference of neighbouring times the very
    binary64 value it was (sign of zero included), a sample followed by
    another one caches the very binary64 value of
    [(next.value - value) / (next.time - time)]: the two are equal for
    [==] whenever that quotient is not NaN, and the cache is NaN when it
    is.  The last sample caches [+0.0], which is [== 0]. *)
Theorem derivative_cache_invariant (sig : Signal) :
  constructed_exactly sig ->
  (forall i s n, nth_error sig i = Some s -> nth_error sig (S i) = Some n ->
     derivative s = ((value n - value s) / (time n - time s))%float /\
     (is_nan ((value n - value s) / (time n - time s))%float = false ->
      (derivative s =? (value n - value s) / (time n - time s))%float = true) /\
     (is_nan ((value n - value s) / (time n - time s))%float = true ->
      is_nan (derivative s) = true)) /\
  (forall s, back sig = Some s ->
     derivative s = 0%float /\ (derivative s =? 0)%float = true).
Proof.
  intro C. apply slope_cached_constructed in C. split.
  - intros i s n Es En. pose proof (linked_nth _ _ C _ _ Es) as R.
    rewrite En in R. simpl in R. rewrite R.
    split; [reflexivity|]. split; [apply eqb_refl|auto].
  - intros s B. destruct (back_nth _ _ B) as (Es & En).
    pose proof (linked_nth _ _ C _ _ Es) as R. rewrite En in R. simpl in R.
    rewrite R. split; reflexivity.
Qed.

(** ** Time-sorted signals whose times are numbers *)

Section Sorted.

Local Open Scope float_scope.

Lemma numbers_tail (a : Sample) (r : Signal) :
  times_are_numbers (a :: r) -> times_are_numbers r.
Proof. intro N. inversion N. assumption. Qed.

Lemma numbers_In (sig : Signal) (s : Sample) :
  times_are_numbers sig -> In s sig -> is_nan (time s) = false.
Proof. intros N I. exact (proj1 (Forall_forall _ _) N s I). Qed.

(** No sample is timed before the first one. *)
Lemma time_sorted_from_front (a : Sample) (r : Signal) :
  time_sorted (a :: r) -> times_are_numbers (a :: r) ->
  forall s, In s (a :: r) -> (time s <? time a) = false.
Proof.
  revert a. induction r as [|b r IH]; intros a L N s [<-|I]; try apply ltb_irrefl.
  - destruct I.
  - destruct L as (ab & L). simpl in ab.
    pose proof (numbers_tail _ _ N) as N'.
    refine (nlt_trans _ (time b) _ _ ab (IH b L N' s I)).
    exact (numbers_In _ _ N' (or_introl eq_refl)).
Qed.

(** No sample is timed after the last one. *)
Lemma time_sorted_to_back (sig : Signal) (l : Sample) :
  time_sorted sig -> times_are_numbers sig -> back sig = Some l ->
  forall s, In s sig -> (time l <? time s) = false.
Proof.
  induction sig as [|a r IH]; intros L N B s I; [destruct I|].
  destruct r as [|b r].
  - simpl in B. injection B as <-. destruct I as [<-|[]]. apply ltb_irrefl.
  - change (back (a :: b :: r)) with (back (b :: r)) in B.
    pose proof (linked_tail _ _ _ L) as L'.
    pose proof (numbers_tail _ _ N) as N'.
    destruct I as [<-|I]; [|exact (IH L' N' B s I)].
    destruct L as (ab & _). simpl in ab.
    refine (nlt_trans _ (time b) _ _ ab (IH L' N' B b (or_introl eq_refl))).
    exact (numbers_In _ _ N' (or_introl eq_refl)).
Qed.

Lemma begin_le_end (sig : Signal) :
  time_sorted sig -> times_are_numbers sig ->
  (end_time sig <? begin_time sig) = false.
Proof.
  intros L N. destruct sig as [|a r]; [apply ltb_irrefl|].
  unfold end_time. destruct (back (a :: r)) as [l|] eqn:B.
  - exact (time_sorted_to_back _ _ L N B a (or_introl eq_refl)).
  - apply back_None in B. discriminate.
Qed.

Lemma lower_bound_all (sig : Signal) (t : float) :
  (forall s, In s sig -> (time s <? t) = true) -> lower_bound sig t = length sig.
Proof.
  induction sig as [|a r IH]; intro A; [reflexivity|].
  simpl. rewrite (A a (or_introl eq_refl)). f_equal. apply IH.
  intros s I. apply A. right. exact I.
Qed.

(** The position found by [lower_bound] is the partition point: the
    samples before it are timed before [t], the samples from it on are
    not. *)
Lemma lower_bound_partition (sig : Signal) (t : float) :
  time_sorted sig -> times_are_numbers sig ->
  (forall i s, (i < lower_bound sig t)%nat -> nth_error sig i = Some s ->
     (time s <? t) = true) /\
  (forall i s, (lower_bound sig t <= i)%nat -> nth_error sig i = Some s ->
     (time s <? t) = false).
Proof.
  induction sig as [|a r IH]; intros L N.
  - split; intros [|i] s; discriminate.
  - simpl. destruct (time a <? t) eqn:at_.
    + destruct (IH (linked_tail _ _ _ L) (numbers_tail _ _ N)) as (Lo & Hi). split.
      * intros [|i] s Li E; simpl in E; [injection E as <-; exact at_|].
        apply (Lo i s); [lia|exact E].
      * intros [|i] s Li E; [lia|]. apply (Hi i s); [lia|exact E].
    + split; [intros i s Li; lia|].
      intros i s _ E. apply nth_error_In in E.
      destruct (time s <? t) eqn:st; [|reflexivity].
      rewrite (le_lt_trans _ _ _ (numbers_In _ _ N (or_introl eq_refl))
                 (time_sorted_from_front _ _ L N s E) st) in at_.
      discriminate.
Qed.

(** The guard of [at] asks for [t < begin_time] and [end_time < t] at once:
    it never holds, so [at] never throws. *)
Lemma at_guard_dead (sig : Signal) (t : float) :
  time_sorted sig -> times_are_numbers sig ->
  (t <? begin_time sig) && (end_time sig <? t) = false.
Proof.
  intros L N. destruct (t <? begin_time sig) eqn:tb; [|reflexivity].
  destruct (end_time sig <? t) eqn:et; [|reflexivity].
  pose proof (begin_le_end _ L N) as be.
  rewrite (ltb_trans _ _ _ et tb) in be. discriminate.
Qed.

Lemma at_never_throws (sig : Signal) (t : float) (e : exn) :
  time_sorted sig -> times_are_numbers sig -> at_ sig t <> Throw e.
Proof.
  intros L N. unfold at_. rewrite (at_guard_dead sig t L N).
  unfold deref. destruct (nth_error sig (lower_bound sig t)) as [it|]; simpl.
  - destruct (time it =? t); discriminate.
  - discriminate.
Qed.

(** Away from the breakpoints [at] interpolates from the sample that
    [lower_bound] finds, the first one not timed before [t], along the
    slope cached there. *)
Lemma at_not_breakpoint (sig : Signal) (t : float) (it : Sample) :
  (t <? begin_time sig) && (end_time sig <? t) = false ->
  nth_error sig (lower_bound sig t) = Some it -> (time it =? t) = false ->
  at_ sig t = Ok (mkSample t (interpolate it t) (derivative it)).
Proof. intros G E B. unfold at_, deref. rewrite G, E. simpl. rewrite B. reflexivity. Qed.

(** Strictly between two neighbouring samples [a] and [b], [lower_bound]
    finds [b], and [at] returns the value on the line through [b] with the
    slope cached on [b], the slope of the segment that leaves [b]. *)
Lemma at_between (sig : Signal) (k : nat) (a b : Sample) (t : float) :
  time_sorted sig -> times_are_numbers sig ->
  nth_error sig k = Some a -> nth_error sig (S k) = Some b ->
  (time a <? t) = true -> (t <? time b) = true ->
  lower_bound sig t = S k /\
  at_ sig t = Ok (mkSample t (interpolate b t) (derivative b)).
Proof.
  intros L N Ea Eb at_ tb.
  destruct (lower_bound_partition sig t L N) as (Lo & Hi).
  assert (P : lower_bound sig t = S k).
  { destruct (Nat.lt_trichotomy (lower_bound sig t) (S k)) as [Lt|[Eq|Gt]].
    - rewrite (Hi k a) in at_; [discriminate|lia|exact Ea].
    - exact Eq.
    - rewrite (ltb_asym _ _ (Lo (S k) b Gt Eb)) in tb. discriminate. }
  split; [exact P|].
  apply at_not_breakpoint.
  - apply at_guard_dead; assumption.
  - rewrite P. exact Eb.
  - apply ltb_neq. exact tb.
Qed.

(** [push_back] accepts a sample timed exactly at [end_time]. *)
Lemma push_back_equal_time (l : Signal) (a s : Sample) :
  time s = time a -> push_back (l ++ [a]) s = Ok (l ++ [patched a s; appended s]).
Proof. intro E. rewrite push_back_snoc, E, ltb_irrefl. reflexivity. Qed.

(** C10.  On every non-empty signal (time-sorted as [push_back] leaves
    it, no time NaN) and every [t] after [end_time], [t] is after
    [begin_time] too, the guard of [at] does not fire, [lower_bound]
    returns [end()] and the access at that position is out of bounds: [at]
    reaches [Undefined], neither a result nor an exception.  [at] on the
    empty signal reaches it for every [t]. *)
Theorem at_past_end_out_of_bounds :
  (forall (sig : Signal) (t : float),
     time_sorted sig -> times_are_numbers sig -> sig <> [] ->
     (end_time sig <? t) = true ->
     (begin_time sig <? t) = true /\
     (t <? begin_time sig) && (end_time sig <? t) = false /\
     lower_bound sig t = length sig /\
     nth_error sig (lower_bound sig t) = None /\
     at_ sig t = Undefined) /\
  (forall t : float, at_ [] t = Undefined).
Proof.
  split.
  - intros sig t L N NE et.
    destruct (back sig) as [l|] eqn:B; [|apply back_None in B; contradiction].
    unfold end_time in et. rewrite B in et.
    assert (A : forall s, In s sig -> (time s <? t) = true).
    { intros s I.
      exact (le_lt_trans _ _ _ (numbers_In _ _ N I) (time_sorted_to_back _ _ L N B s I) et). }
    assert (bt : (begin_time sig <? t) = true).
    { destruct sig as [|a r]; [contradiction|]. exact (A a (or_introl eq_refl)). }
    assert (G : (t <? begin_time sig) && (end_time sig <? t) = false)
      by (rewrite (ltb_asym _ _ bt); reflexivity).
    assert (P : lower_bound sig t = length sig) by (apply lower_bound_all; exact A).
    assert (O : nth_error sig (lower_bound sig t) = None)
      by (apply nth_error_None; rewrite P; apply Nat.le_refl).
    repeat split; try assumption.
    unfold at_, deref. rewrite G, O. reflexivity.
  - intro t. unfold at_. change (begin_time []) with 0. change (end_time []) with 0.
    destruct (t <? 0) eqn:tz.
    + rewrite (ltb_asym _ _ tz). reflexivity.
    + reflexivity.
Qed.

End Sorted.

(** ** [resize] with [start] before the signal (C8) *)

Section ResizeLeft.

Local Open Scope float_scope.

Lemma resize_loop_cons (start end_ : float) (before : option Sample)
    (i : Sample) (tl : list Sample) (sig : Signal) :
  resize_loop start end_ before (i :: tl) sig =
  if match tl with [] => false | nxt :: _ => start <? time nxt end then
    sig' <- push_back sig (Sample2 start (interpolate i start)) ;;
    resize_loop start end_ (Some i) tl sig'
  else if (start <=? time i) && (time i <=? end_) then
    sig' <- push_back sig i ;;
    resize_loop start end_ (Some i) tl sig'
  else if end_ <? time i then
    match before with
    | Some p =>
        if time p <? end_ then
          sig' <- push_back sig (Sample2 end_ (interpolate p end_)) ;;
          resize_loop start end_ (Some i) tl sig'
        else Ok sig
    | None => Ok sig
    end
  else resize_loop start end_ (Some i) tl sig.
Proof. reflexivity. Qed.

(** The loop of [resize] when every sample is timed after [start] and the
    output so far ends at [start]: it returns; and if the last sample is
    timed before [end_], the loop has appended samples at [start] and then
    that last sample. *)
Lemma resize_loop_above (start end_ : float) (rest : list Sample) :
  forall before sig,
    sig <> [] -> end_time sig = start ->
    (forall s, In s rest -> (start <? time s) = true) ->
    (forall p, before = Some p -> (start <? time p) = true) ->
    exists r, resize_loop start end_ before rest sig = Ok r /\
      (rest = [] -> r = sig) /\
      (forall l, back rest = Some l -> (time l <? end_) = true ->
         back r = Some (appended l) /\
         exists n, times r = times sig ++ repeat start n ++ [time l]).
Proof.
  induction rest as [|i tl IH]; intros before sig N E A Bf.
  - exists sig. split; [reflexivity|]. split; [reflexivity|]. intros; discriminate.
  - assert (Ai : (start <? time i) = true) by (apply A; left; reflexivity).
    assert (Atl : forall s, In s tl -> (start <? time s) = true)
      by (intros s I; apply A; right; exact I).
    assert (Bi : forall p, Some i = Some p -> (start <? time p) = true)
      by (intros p [= <-]; exact Ai).
    destruct tl as [|nxt tl'].
    + (* the last sample *)
      rewrite resize_loop_cons. cbv beta iota zeta.
      destruct ((start <=? time i) && (time i <=? end_)) eqn:keep.
      * destruct (push_back_at_end sig i N) as (sig' & Ep).
        { rewrite E. apply ltb_asym. exact Ai. }
        exists sig'. rewrite Ep. split; [reflexivity|]. split; [discriminate|].
        intros l [= <-] _. split; [exact (back_push_back _ _ _ Ep)|].
        exists 0%nat. exact (times_push_back _ _ _ Ep).
      * assert (far : (time i <? end_) = false).
        { destruct (time i <? end_) eqn:L; [|reflexivity].
          rewrite (ltb_leb _ _ Ai), (ltb_leb _ _ L) in keep. discriminate. }
        assert (none : forall r l, Some i = Some l -> (time l <? end_) = true ->
                  back r = Some (appended l) /\
                  exists n, times r = times sig ++ repeat start n ++ [time l]).
        { intros r l [= <-] L. rewrite L in far. discriminate. }
        destruct (end_ <? time i).
        -- destruct before as [p|].
           ++ destruct (time p <? end_) eqn:pe.
              ** destruct (push_back_at_end sig (Sample2 end_ (interpolate p end_)) N)
                   as (sig' & Ep).
                 { rewrite E. simpl. apply ltb_asym.
                   exact (ltb_trans _ _ _ (Bf p eq_refl) pe). }
                 exists sig'. rewrite Ep. split; [reflexivity|].
                 split; [discriminate|apply none].
              ** exists sig. split; [reflexivity|]. split; [discriminate|apply none].
           ++ exists sig. split; [reflexivity|]. split; [discriminate|apply none].
        -- exists sig. split; [reflexivity|]. split; [discriminate|apply none].
    + (* a sample with a successor: the successor is timed after [start] *)
      destruct (push_back_at_end sig (Sample2 start (interpolate i start)) N)
        as (sig' & Ep).
      { rewrite E. apply ltb_irrefl. }
      pose proof (back_push_back _ _ _ Ep) as B'.
      assert (N' : sig' <> []) by (intros ->; discriminate).
      destruct (IH (Some i) sig' N' (end_time_back _ _ B') Atl Bi) as (r & Er & _ & Bk).
      exists r. rewrite resize_loop_cons. cbv beta iota zeta.
      rewrite (Atl nxt (or_introl eq_refl)), Ep. cbv beta iota delta [bind].
      split; [exact Er|]. split; [discriminate|].
      intros l Bl Ll. destruct (Bk l Bl Ll) as (Br & n & Tr).
      split; [exact Br|]. exists (S n).
      rewrite Tr, (times_push_back _ _ _ Ep), <- app_assoc. reflexivity.
Qed.

(** [at] on the time of the first sample returns that sample. *)
Lemma at_front (s0 : Sample) (r : Signal) :
  is_nan (time s0) = false -> at_ (s0 :: r) (time s0) = Ok s0.
Proof.
  intro N. unfold at_. change (begin_time (s0 :: r)) with (time s0).
  rewrite ltb_irrefl. cbn [andb lower_bound]. rewrite ltb_irrefl.
  cbn [deref nth_error bind]. rewrite (eqb_refl _ N). reflexivity.
Qed.

Lemma points_grow_push_back (pts : list (float * float)) (sig : Signal) (s : Sample)
    (sig' : Signal) :
  (exists extra, points sig = pts ++ extra) -> push_back sig s = Ok sig' ->
  exists extra, points sig' = pts ++ extra.
Proof.
  intros (extra & E) P. apply points_push_back in P.
  exists (extra ++ [point s]). rewrite P, E, app_assoc. reflexivity.
Qed.

(** C8.  For every signal [x] (time-sorted as [push_back] leaves it, no
    time NaN) and [start] before its [begin_time], [resize] returns a
    signal that begins at [start], and [at(start)] on it returns the
    sample with the value [fill].  If moreover [x] ends before [end_],
    every sample of the result is timed before [end_] (no sample is
    appended at [end_]): the result ends with the last breakpoint of [x],
    or is the single filled sample when [x] is empty. *)
Theorem resize_fill_left (x : Signal) (start end_ fill : float) :
  time_sorted x -> times_are_numbers x -> (start <? begin_time x) = true ->
  exists r, resize x start end_ fill = Ok r /\
    begin_time r = start /\
    (exists s, at_ r start = Ok s /\ time s = start /\ value s = fill) /\
    ((end_time x <? end_) = true ->
       (forall s, In s r -> (time s <? end_) = true) /\
       (x = [] -> r = [mkSample start fill 0]) /\
       (x <> [] -> end_time r = end_time x /\
                   option_map point (back r) = option_map point (back x))).
Proof.
  intros L Nx S.
  set (sig0 := [mkSample start fill 0] : Signal).
  assert (E0 : resize x start end_ fill = resize_loop start end_ None x sig0).
  { unfold resize. rewrite S. reflexivity. }
  assert (A : forall s, In s x -> (start <? time s) = true).
  { destruct x as [|a x']; [intros s []|]. intros s I.
    exact (lt_le_trans _ _ _ (numbers_In _ _ Nx I) S (time_sorted_from_front _ _ L Nx s I)). }
  destruct (resize_loop_above start end_ x None sig0)
    as (r & Er & Enil & Bk); try (reflexivity || discriminate || assumption).
  exists r. rewrite E0. split; [exact Er|].
  assert (G : exists extra, points r = [(start, fill)] ++ extra).
  { refine (resize_loop_preserves
              (fun g => exists extra, points g = [(start, fill)] ++ extra)
              _ start end_ x None sig0 r _ Er); [|exists []; reflexivity].
    intros g s g'. apply points_grow_push_back. }
  destruct G as (extra & G). destruct r as [|s0 r']; [discriminate|].
  injection G as T V _.
  split; [exact T|]. split.
  { exists s0. rewrite <- T at 1. split; [|split; assumption].
    apply at_front. rewrite T. exact (proj1 (ltb_numbers _ _ S)). }
  intro X. destruct x as [|a x'].
  - specialize (Enil eq_refl). split; [|split; [intros _; exact Enil|intros N; contradiction]].
    rewrite Enil. intros s [<-|[]]. simpl.
    exact (ltb_trans _ _ _ S X).
  - destruct (back (a :: x')) as [l|] eqn:B; [|apply back_None in B; discriminate].
    unfold end_time in X. rewrite B in X.
    destruct (Bk l eq_refl X) as (Br & n & Tr).
    split; [|split; [discriminate|intros _]].
    + intros s I. apply (in_map time) in I. fold (times (s0 :: r')) in I.
      rewrite Tr in I. simpl in I.
      assert (Sl : (start <? end_) = true)
        by exact (ltb_trans _ _ _ (A l (back_In _ _ B)) X).
      destruct I as [<-|I]; [exact Sl|].
      apply in_app_or in I. destruct I as [I|[<-|[]]]; [|exact X].
      apply repeat_spec in I. rewrite I. exact Sl.
    + unfold end_time. rewrite Br, B. split; reflexivity.
Qed.

End ResizeLeft.

(** ** [synchronize] and its loop

    The loop is modelled with fuel; the fuel [synchronize] passes is enough
    whenever no time is NaN, so [Diverge] stands for the one case in which
    the [while] of the source never ends. *)

Lemma prev_cases (sig : Signal) (i : nat) :
  (exists p, prev sig i = Ok p) \/ prev sig i = Undefined.
Proof.
  unfold prev, deref. destruct i as [|k]; [right; reflexivity|].
  destruct (nth_error sig k); eauto.
Qed.

Lemma sync_loop_returns (x y : Signal) :
  times_are_numbers x -> times_are_numbers y ->
  forall fuel i j xv yv,
    (length x - i) + (length y - j) < fuel ->
    sync_loop fuel x y i j xv yv <> Diverge.
Proof.
  intros Nx Ny. induction fuel as [|fuel IH]; intros i j xv yv M; [lia|].
  simpl. destruct (nth_error x i) as [si|] eqn:Ei; [|discriminate].
  destruct (nth_error y j) as [sj|] eqn:Ej; [|discriminate].
  assert (Li : i < length x) by (apply nth_error_Some; congruence).
  assert (Lj : j < length y) by (apply nth_error_Some; congruence).
  destruct (time si =? time sj)%float eqn:E; [apply IH; lia|].
  destruct (time si <? time sj)%float eqn:L.
  { destruct (prev_cases y j) as [(p & ->)| ->]; simpl; [apply IH; lia|discriminate]. }
  rewrite (trichotomy _ _ (numbers_In _ _ Nx (nth_error_In _ _ Ei))
             (numbers_In _ _ Ny (nth_error_In _ _ Ej)) E L).
  destruct (prev_cases x i) as [(p & ->)| ->]; simpl; [apply IH; lia|discriminate].
Qed.

Lemma bind_returns {T U} (m : outcome T) (k : T -> outcome U) :
  m <> Diverge -> (forall v, m = Ok v -> k v <> Diverge) -> bind m k <> Diverge.
Proof. destruct m; simpl; intros M K; try discriminate; auto. Qed.

Lemma deref_returns (sig : Signal) (i : nat) : deref sig i <> Diverge.
Proof. unfold deref. destruct (nth_error sig i); discriminate. Qed.

Lemma prev_returns (sig : Signal) (i : nat) : prev sig i <> Diverge.
Proof. destruct i; [discriminate|apply deref_returns]. Qed.

Lemma push_back_returns (sig : Signal) (s : Sample) : push_back sig s <> Diverge.
Proof.
  unfold push_back. destruct (back sig); [|discriminate].
  destruct (time s <? end_time sig)%float; discriminate.
Qed.

Lemma push_all_returns (data : list Sample) : forall sig, push_all sig data <> Diverge.
Proof.
  induction data as [|s data IH]; simpl; intro sig; [discriminate|].
  apply bind_returns; [apply push_back_returns|auto].
Qed.

Ltac returns :=
  repeat first
    [ apply bind_returns; [|intros ? ?]
    | apply deref_returns | apply prev_returns | apply push_all_returns
    | discriminate
    | match goal with
      | |- (if ?c then _ else _) <> Diverge => destruct c
      | |- match back ?l with _ => _ end <> Diverge => destruct (back l)
      | |- (let (_, _) := ?p in _) <> Diverge => destruct p
      end ].

(** [synchronize] returns, throws or runs into undefined behaviour: its
    loop advances a cursor at every iteration when no time is NaN. *)
Lemma synchronize_returns (x y : Signal) :
  times_are_numbers x -> times_are_numbers y -> synchronize x y <> Diverge.
Proof.
  intros Nx Ny. unfold synchronize, Signal_of. returns.
  apply sync_loop_returns; [assumption|assumption|lia].
Qed.

(** ** The scenarios

    Each signal of the scenarios is what the constructors return. *)

Lemma ramp_built :
  (s <- push_back2 [] 0 0 ;; push_back2 s 2 4)%float = Ok ramp.
Proof. vm_compute. reflexivity. Qed.

Lemma ramp_from_arrays : Signal_of_arrays [0; 4]%float [0; 2]%float = Ok ramp.
Proof. vm_compute. reflexivity. Qed.

Lemma triangle_built : Signal_of_arrays [0; 1; 0]%float [0; 1; 2]%float = Ok triangle.
Proof. vm_compute. reflexivity. Qed.

Lemma level_built : Signal_of_arrays [1; 1]%float [0; 2]%float = Ok level.
Proof. vm_compute. reflexivity. Qed.

Lemma wide_built : Signal_of_arrays [0; 0]%float [0; 3]%float = Ok wide.
Proof. vm_compute. reflexivity. Qed.

Lemma narrow_built : Signal_of_arrays [1; 1]%float [1; 2]%float = Ok narrow.
Proof. vm_compute. reflexivity. Qed.

Lemma late_built : Signal_of_arrays [0; 0]%float [2; 3]%float = Ok late.
Proof. vm_compute. reflexivity. Qed.

Lemma early_built : Signal_of_arrays [0; 0; 5]%float [0; 1; 5]%float = Ok early.
Proof. vm_compute. reflexivity. Qed.

Lemma plateau_built : Signal_of_arrays [1; 1; 1; 5]%float [0; 1; 2; 3]%float = Ok plateau.
Proof. vm_compute. reflexivity. Qed.

Lemma unit_ramp_built : Signal_of_arrays [0; 1]%float [0; 1]%float = Ok unit_ramp.
Proof. vm_compute. reflexivity. Qed.

Lemma twice_built :
  (s <- push_back2 [] 0 0 ;; push_back2 s 0 1)%float = Ok twice.
Proof. vm_compute. reflexivity. Qed.

Lemma ramp_sorted : time_sorted ramp.
Proof. simpl. repeat split. Qed.

Lemma ramp_numbers : times_are_numbers ramp.
Proof. repeat constructor. Qed.

(** A number differs from whatever [==] tells it apart from. *)
Lemma eqb_false_neq (a b : float) :
  is_nan a = false -> (a =? b)%float = false -> a <> b.
Proof. intros N E ->. rewrite (eqb_refl _ N) in E. discriminate. Qed.

(** C1.  On the scenario of the specification [synchronize] returns the
    two expected signals.  On [wide] and [narrow], whose domains overlap,
    the first output has the times 1, 1, 2 and the second the times 1, 2:
    the leading sample synthesised at [begin_time] is emitted once more by
    the merging loop.  On [late] and [early] the leading sample of [y]
    reads [std::prev(i)] at [x->begin()]. *)
Theorem synchronize_scenario_and_leading_sample :
  synchronize triangle level = Ok (triangle, level_synchronized) /\
  synchronize wide narrow = Ok (wide_synchronized, narrow) /\
  times wide_synchronized = [1; 1; 2]%float /\
  times narrow = [1; 2]%float /\
  synchronize late early = Undefined.
Proof. repeat split; vm_compute; reflexivity. Qed.

(** C2.  After [push_back(0, 0)] and [push_back(2, 4)] the first sample
    caches the slope 2, and [at(1)] interpolates from the sample found by
    [lower_bound], the one at time 2 with slope 0: it returns the value 4. *)
Theorem at_interpolates_from_lower_bound :
  (s <- push_back2 [] 0 0 ;; push_back2 s 2 4)%float = Ok ramp /\
  option_map derivative (front ramp) = Some 2%float /\
  lower_bound ramp 1%float = 1 /\
  at_ ramp 1%float = Ok (mkSample 1 4 0)%float.
Proof. repeat split; vm_compute; reflexivity. Qed.

(** C3.  Before [begin_time], [at] extrapolates from the first sample and
    returns; after [end_time] it dereferences [end()].  It throws in
    neither case. *)
Theorem at_outside_domain_does_not_throw :
  begin_time ramp = 0%float /\ end_time ramp = 2%float /\
  at_ ramp (-1)%float = Ok (mkSample (-1) (-2) 2)%float /\
  at_ ramp 3%float = Undefined.
Proof. repeat split; vm_compute; reflexivity. Qed.

(** C4.  [push_back] throws on a sample timed before [end_time] and
    appends one timed after it; a sample timed exactly at [end_time] is
    appended too, and the slope patched into the previous sample is a
    division by zero. *)
Theorem push_back_accepts_equal_time :
  push_back ramp (mkSample 1 9 0)%float = Throw invalid_argument /\
  push_back ramp (mkSample 3 5 0)%float =
    Ok [mkSample 0 0 2; mkSample 2 4 1; mkSample 3 5 0]%float /\
  push_back [mkSample 0 0 0]%float (mkSample 0 1 0)%float = Ok twice /\
  push_back ramp (mkSample 2 5 0)%float =
    Ok [mkSample 0 0 2; mkSample 2 4 infinity; mkSample 2 5 0]%float.
Proof. repeat split; vm_compute; reflexivity. Qed.

(** C5.  [twice] is constructed by two calls of [push_back] and its two
    samples share the time 0; [resize] of [triangle] to its own domain
    has two samples at time 0 as well. *)
Theorem constructed_signal_repeats_a_time :
  constructed twice /\ times twice = [0; 0]%float /\ ~ time_increasing twice /\
  resize triangle 0%float 2%float 7%float = Ok triangle_resized /\
  constructed triangle_resized /\
  times triangle_resized = [0; 0; 2]%float /\ ~ time_increasing triangle_resized.
Proof.
  assert (R : resize triangle 0%float 2%float 7%float = Ok triangle_resized)
    by (vm_compute; reflexivity).
  repeat split; try exact R.
  - apply by_push_back with (sig := [mkSample 0 0 0]%float) (s := (mkSample 0 1 0)%float).
    + apply by_push_back with (sig := []) (s := (mkSample 0 0 0)%float);
        [apply by_default|reflexivity].
    + vm_compute. reflexivity.
  - intros (E & _). vm_compute in E. discriminate.
  - apply by_resize with (x := triangle) (start := 0%float) (end_ := 2%float)
      (fill := 7%float); [|exact R].
    exact (by_arrays _ _ _ _ triangle_built).
  - intros (E & _). vm_compute in E. discriminate.
Qed.

(** C6 under rounding.  [unit_ramp] shifted by [2^53] is a constructed
    signal: both times round to [2^53], the first sample still caches the
    slope 1, and the quotient of the differences is [1 / 0], infinity,
    which is not [==] to 1. *)
Lemma shift_breaks_derivative_cache :
  shift unit_ramp two_to_53 = Ok unit_ramp_shifted /\
  constructed unit_ramp_shifted /\
  ((1 - 0) / (two_to_53 - two_to_53) = infinity)%float /\
  ~ (forall i s n,
       nth_error unit_ramp_shifted i = Some s ->
       nth_error unit_ramp_shifted (S i) = Some n ->
       derivative s = ((value n - value s) / (time n - time s))%float) /\
  ~ (forall i s n,
       nth_error unit_ramp_shifted i = Some s ->
       nth_error unit_ramp_shifted (S i) = Some n ->
       (derivative s =? (value n - value s) / (time n - time s))%float = true).
Proof.
  assert (E : shift unit_ramp two_to_53 = Ok unit_ramp_shifted)
    by (vm_compute; reflexivity).
  split; [exact E|]. split; [|split; [reflexivity|split]].
  - apply by_shift with (x := unit_ramp) (dt := two_to_53); [|exact I|exact E].
    exact (by_arrays _ _ _ _ unit_ramp_built).
  - intro C. specialize (C 0 _ _ eq_refl eq_refl).
    revert C. apply eqb_false_neq; vm_compute; reflexivity.
  - intro C. specialize (C 0 _ _ eq_refl eq_refl).
    vm_compute in C. discriminate.
Qed.

(** C7.  [triangle] has the sample (1, 1) inside [[0, 2]]; the result of
    [resize(0, 2, fill)] has no sample at time 1: for every sample that
    has a successor timed after [start] the loop emits a sample at
    [start] instead of keeping it. *)
Theorem resize_drops_sample_in_range :
  existsb (fun s => (time s =? 1) && (value s =? 1))%float triangle = true /\
  resize triangle 0%float 2%float 7%float = Ok triangle_resized /\
  existsb (fun s => time s =? 1)%float triangle_resized = false.
Proof. repeat split; vm_compute; reflexivity. Qed.

(** C9.  [simplify] drops the sample (1, 1) of [plateau]; at time 0.5,
    inside the domain, [at] returns 1 on [plateau] and -5 on the
    simplified signal, since it interpolates from the sample that follows
    the time. *)
Theorem simplify_changes_at :
  simplify plateau = Ok plateau_simplified /\
  at_ plateau 0.5%float = Ok (mkSample 0.5 1 0)%float /\
  at_ plateau_simplified 0.5%float = Ok (mkSample 0.5 (-5) 4)%float.
Proof. repeat split; vm_compute; reflexivity. Qed.

(** ** The general theorems on the ramp *)

(** [ramp] shifted by 1: the times 0 and 2 become 1 and 3 exactly, and the
    shifted signal keeps the derivative cache. *)
Lemma derivative_cache_invariant_witness :
  shift ramp 1%float = Ok ramp_shifted /\
  (forall i s n,
     nth_error ramp_shifted i = Some s -> nth_error ramp_shifted (S i) = Some n ->
     derivative s = ((value n - value s) / (time n - time s))%float /\
     (is_nan ((value n - value s) / (time n - time s))%float = false ->
      (derivative s =? (value n - value s) / (time n - time s))%float = true) /\
     (is_nan ((value n - value s) / (time n - time s))%float = true ->
      is_nan (derivative s) = true)) /\
  (forall s, back ramp_shifted = Some s ->
     derivative s = 0%float /\ (derivative s =? 0)%float = true).
Proof.
  assert (E : shift ramp 1%float = Ok ramp_shifted) by (vm_compute; reflexivity).
  split; [exact E|].
  apply derivative_cache_invariant.
  apply by_shift with (x := ramp) (dt := 1%float); [| |exact E].
  - exact (by_arrays _ _ _ _ ramp_from_arrays).
  - unfold shift_exact. simpl. repeat split.
Defined.

(** [ramp.resize(-1, 3, 5)]: the result begins at -1 with the value 5 and
    ends at 2, before 3. *)
Lemma resize_fill_left_witness :
  resize ramp (-1)%float 3%float 5%float = Ok ramp_resized /\
  begin_time ramp_resized = (-1)%float /\
  (exists s, at_ ramp_resized (-1)%float = Ok s /\
             time s = (-1)%float /\ value s = 5%float) /\
  (forall s, In s ramp_resized -> (time s <? 3)%float = true) /\
  end_time ramp_resized = end_time ramp.
Proof.
  assert (E : resize ramp (-1)%float 3%float 5%float = Ok ramp_resized)
    by (vm_compute; reflexivity).
  destruct (resize_fill_left ramp (-1)%float 3%float 5%float ramp_sorted ramp_numbers)
    as (r & Er & B & A & T); [vm_compute; reflexivity|].
  rewrite E in Er. injection Er as <-.
  split; [exact E|]. split; [exact B|]. split; [exact A|].
  destruct T as (I & _ & N); [vm_compute; reflexivity|].
  split; [exact I|]. apply N. discriminate.
Defined.

(** [at(3)] on [ramp], whose domain is [[0, 2]], and [at(0)] on the empty
    signal. *)
Lemma at_past_end_out_of_bounds_witness :
  at_ ramp 3%float = Undefined /\ at_ [] 0%float = Undefined.
Proof.
  destruct at_past_end_out_of_bounds as (A & B).
  split; [|exact (B 0%float)].
  apply A.
  - exact ramp_sorted.
  - exact ramp_numbers.
  - discriminate.
  - vm_compute. reflexivity.
Defined.

(** * Further properties of the code *)

(** ** [push_back] and the constructors *)

(** X1.  When [push_back] returns, the signal has one more sample, the
    breakpoints it had are unchanged and followed by the new one, every
    sample but the previous last one is untouched, and the new last sample
    caches the slope [0.0]. *)
Theorem push_back_appends_one_breakpoint (sig sig' : Signal) (s : Sample) :
  push_back sig s = Ok sig' ->
  length sig' = S (length sig) /\
  points sig' = points sig ++ [point s] /\
  firstn (length sig - 1) sig' = firstn (length sig - 1) sig /\
  back sig' = Some (mkSample (time s) (value s) 0%float).
Proof.
  intro E. split; [|split; [exact (points_push_back _ _ _ E)|split]].
  - pose proof (f_equal (@length _) (points_push_back _ _ _ E)) as L.
    unfold points in L. rewrite length_app, !length_map in L. simpl in L. lia.
  - destruct (push_back_inv _ _ _ E) as [(-> & ->)|(l & a & -> & _ & ->)];
      [reflexivity|].
    assert (L : length (l ++ [a]) - 1 = length l) by (rewrite length_app; simpl; lia).
    rewrite L, !firstn_app, !firstn_all, !Nat.sub_diag. reflexivity.
  - exact (back_push_back _ _ _ E).
Qed.

Lemma push_back_appends_one_breakpoint_witness :
  length [mkSample 0 0 2; mkSample 2 4 1; mkSample 3 5 0]%float = 3 /\
  points [mkSample 0 0 2; mkSample 2 4 1; mkSample 3 5 0]%float =
    points ramp ++ [(3, 5)%float] /\
  firstn 1 [mkSample 0 0 2; mkSample 2 4 1; mkSample 3 5 0]%float = firstn 1 ramp /\
  back [mkSample 0 0 2; mkSample 2 4 1; mkSample 3 5 0]%float =
    Some (mkSample 3 5 0)%float.
Proof.
  exact (push_back_appends_one_breakpoint ramp
           [mkSample 0 0 2; mkSample 2 4 1; mkSample 3 5 0]%float
           (mkSample 3 5 0)%float eq_refl).
Defined.

(** The loop of the constructors after a last sample [a]: it returns
    exactly when no sample is timed before its predecessor. *)
Lemma push_all_returns_iff (data : list Sample) :
  forall l a, (exists r, push_all (l ++ [a]) data = Ok r) <-> time_sorted (a :: data).
Proof.
  induction data as [|s data IH]; intros l a.
  - simpl. split; [intros _; exact (conj I I)|intros _; eauto].
  - cbn [push_all]. rewrite push_back_snoc.
    change (time_sorted (a :: s :: data))
      with ((time s <? time a)%float = false /\ time_sorted (appended s :: data)).
    destruct (time s <? time a)%float; simpl.
    + split; [intros (r & E); discriminate|intros (E & _); discriminate].
    + change (l ++ [patched a s; appended s]) with (l ++ [patched a s] ++ [appended s]).
      rewrite app_assoc, IH. tauto.
Qed.

Lemma points_push_all (data : list Sample) :
  forall sig r, push_all sig data = Ok r -> points r = points sig ++ points data.
Proof.
  induction data as [|s data IH]; simpl; intros sig r E.
  - injection E as <-. rewrite app_nil_r. reflexivity.
  - bind_inv E. rewrite (IH _ _ Ek), (points_push_back _ _ _ Eg), <- app_assoc.
    reflexivity.
Qed.

Lemma push_back_cases (sig : Signal) (s : Sample) :
  (exists sig', push_back sig s = Ok sig') \/ push_back sig s = Throw invalid_argument.
Proof.
  unfold push_back. destruct (back sig) as [a|]; [|eauto].
  destruct (time s <? end_time sig)%float; eauto.
Qed.

Lemma push_all_throws (data : list Sample) :
  forall sig, (exists r, push_all sig data = Ok r) \/
              push_all sig data = Throw invalid_argument.
Proof.
  induction data as [|s data IH]; intro sig; simpl; [eauto|].
  destruct (push_back_cases sig s) as [(sig' & ->)| ->]; [apply IH|right; reflexivity].
Qed.

Lemma Signal_of_returns_iff (data : list Sample) :
  (exists r, Signal_of data = Ok r) <-> time_sorted data.
Proof.
  destruct data as [|s data]; [simpl; split; [intros _; exact I|intros _; eexists; reflexivity]|].
  change (Signal_of (s :: data)) with (push_all ([] ++ [appended s]) data).
  rewrite push_all_returns_iff. reflexivity.
Qed.

(** X2.  The sequence, copy and iterator constructors return exactly when
    no sample of the input is timed before its predecessor, and otherwise
    throw [std::invalid_argument].  The signal returned has the
    breakpoints of the input in the same order, non-decreasing times and
    the exact derivative cache. *)
Theorem constructor_returns_iff_sorted (data : list Sample) :
  (time_sorted data /\
   exists r, Signal_of data = Ok r /\ points r = points data /\
             time_sorted r /\ slope_cached r) \/
  (~ time_sorted data /\ Signal_of data = Throw invalid_argument).
Proof.
  destruct (push_all_throws data []) as [(r & E)|E].
  - left. split; [apply Signal_of_returns_iff; eauto|].
    exists r. split; [exact E|]. split; [|split].
    + exact (points_push_all data [] r E).
    + refine (Signal_of_preserves time_sorted I _ data r E).
      intros g s g'. apply time_sorted_push_back.
    + refine (Signal_of_preserves slope_cached I _ data r E).
      intros g s g'. apply slope_cached_push_back.
  - right. split; [|exact E].
    intro L. apply Signal_of_returns_iff in L. destruct L as (r & Er).
    unfold Signal_of in Er. rewrite E in Er. discriminate.
Qed.

(** Pushing the samples of a well-formed signal again rebuilds it. *)
Lemma push_all_copy (data : list Sample) :
  forall l a, time_sorted (a :: data) -> slope_cached (a :: data) ->
    push_all (l ++ [appended a]) data = Ok (l ++ a :: data).
Proof.
  induction data as [|s data IH]; intros l a L C.
  - simpl. destruct C as (C & _). simpl in C. destruct a as [t v d]. simpl in C.
    subst d. reflexivity.
  - cbn [push_all]. rewrite push_back_snoc.
    destruct L as (Ls & L). destruct C as (Cs & C). simpl in Ls, Cs.
    cbn [time appended]. rewrite Ls. cbn [bind].
    assert (P : patched (appended a) s = a).
    { destruct a as [t v d]. unfold patched. simpl in *. subst d. reflexivity. }
    rewrite P.
    change (l ++ [a; appended s]) with (l ++ [a] ++ [appended s]).
    rewrite app_assoc, (IH (l ++ [a]) s L C), <- app_assoc. reflexivity.
Qed.

Lemma copy_is_exact (sig : Signal) :
  time_sorted sig -> slope_cached sig -> Signal_of sig = Ok sig.
Proof.
  destruct sig as [|a data]; [reflexivity|]. intros L C.
  exact (push_all_copy data [] a L C).
Qed.

(** X3.  The copy constructor is exact on the well-formed signals and on
    no others: it returns a signal identical to its argument if and only
    if the argument has non-decreasing times and the exact derivative
    cache. *)
Theorem copy_constructor_round_trip (sig : Signal) :
  Signal_of sig = Ok sig <-> time_sorted sig /\ slope_cached sig.
Proof.
  split.
  - intro E. split.
    + refine (Signal_of_preserves time_sorted I _ sig sig E).
      intros g s g'. apply time_sorted_push_back.
    + refine (Signal_of_preserves slope_cached I _ sig sig E).
      intros g s g'. apply slope_cached_push_back.
  - intros (L & C). exact (copy_is_exact sig L C).
Qed.

(** The loop of [Signal(points, times)] is the loop of the sequence
    constructor on the samples [Sample{times[i], points[i], 0.0}]. *)
Lemma push_points_push_all (points times : list float) :
  forall sig, push_points sig points times =
              push_all sig (samples_of_arrays points times).
Proof.
  revert times. induction points as [|p points IH]; intros [|t times] sig;
    try reflexivity.
  cbn [push_points samples_of_arrays combine map push_all fst snd].
  unfold push_back2. destruct (push_back sig (mkSample t p 0)); simpl; try reflexivity.
  apply IH.
Qed.

Lemma samples_of_arrays_unzip (vs ts : list float) :
  length vs = length ts ->
  times (samples_of_arrays vs ts) = ts /\ map value (samples_of_arrays vs ts) = vs.
Proof.
  revert ts. induction vs as [|v vs IH]; intros [|t ts] E; try discriminate.
  - split; reflexivity.
  - injection E as E. destruct (IH ts E) as (T & V).
    unfold samples_of_arrays in *. simpl. unfold times in *. simpl.
    rewrite T, V. split; reflexivity.
Qed.

(** X4.  [Signal(points, times)] throws [std::invalid_argument] whenever
    the two arrays differ in length, whatever they hold; on arrays of one
    length it is the sequence constructor applied to the samples
    [(times[i], points[i])], whose times are [times] and whose values are
    [points]. *)
Theorem array_constructor_zips (vs ts : list float) :
  (length vs <> length ts -> Signal_of_arrays vs ts = Throw invalid_argument) /\
  (length vs = length ts ->
   Signal_of_arrays vs ts = Signal_of (samples_of_arrays vs ts) /\
   times (samples_of_arrays vs ts) = ts /\
   map value (samples_of_arrays vs ts) = vs).
Proof.
  unfold Signal_of_arrays. split; intro E.
  - apply Nat.eqb_neq in E. rewrite E. reflexivity.
  - split; [|exact (samples_of_arrays_unzip vs ts E)].
    apply Nat.eqb_eq in E. rewrite E. apply push_points_push_all.
Qed.

(** ** [shift] and [resize_shift] *)

(** X5.  On a signal with non-decreasing times [shift] returns: the result
    has as many samples, each time is the old one plus [dt] and each value
    is the old one; the derivatives are the old ones too when the signal
    had the exact derivative cache. *)
Theorem shift_moves_times_only (x : Signal) (dt : float) :
  time_sorted x ->
  exists r, shift x dt = Ok r /\
    length r = length x /\
    times r = map (fun t => (t + dt)%float) (times x) /\
    map value r = map value x /\
    (slope_cached x -> map derivative r = map derivative x).
Proof.
  intro L. destruct (proj2 (Signal_of_returns_iff x) L) as (g & Eg).
  pose proof (points_push_all x [] g Eg) as P. simpl in P.
  exists (shift_times dt g). unfold shift. rewrite Eg. split; [reflexivity|].
  assert (T : times g = times x) by (rewrite !times_points, P; reflexivity).
  assert (V : map value g = map value x).
  { transitivity (map snd (points g)); [unfold points; rewrite map_map; reflexivity|].
    rewrite P. unfold points. rewrite map_map. reflexivity. }
  unfold shift_times. split; [|split; [|split]].
  - rewrite length_map, <- (length_map time g), <- (length_map time x).
    fold (times g). fold (times x). rewrite T. reflexivity.
  - unfold times in *. rewrite map_map. simpl. rewrite <- T, map_map. reflexivity.
  - rewrite map_map. simpl. exact V.
  - intro C. rewrite (copy_is_exact x L C) in Eg. injection Eg as <-.
    rewrite map_map. reflexivity.
Qed.

Lemma shift_moves_times_only_witness :
  exists r, shift ramp 1%float = Ok r /\
    length r = 2 /\ times r = [1; 3]%float /\
    map value r = [0; 4]%float /\ map derivative r = [2; 0]%float.
Proof.
  destruct (shift_moves_times_only ramp 1%float ramp_sorted) as (r & E & L & T & V & D).
  exists r. split; [exact E|]. split; [exact L|]. split; [exact T|]. split; [exact V|].
  apply D. simpl. repeat split.
Defined.

(** X6.  [resize_shift] is [resize] followed by [shift]: the two return
    the same signal, throw the same exception or are undefined together.
    ([shift] runs the constructor again, which is exact on what [resize]
    returns.) *)
Theorem resize_shift_is_resize_then_shift (x : Signal) (start end_ fill dt : float) :
  resize_shift x start end_ fill dt =
  (out <- resize x start end_ fill ;; shift out dt).
Proof.
  unfold resize_shift. destruct (resize x start end_ fill) as [out| | |] eqn:E;
    try reflexivity.
  simpl. unfold shift. rewrite (copy_is_exact out); [reflexivity| |].
  - refine (resize_preserves time_sorted I _ x start end_ fill out E).
    intros g s g'. apply time_sorted_push_back.
  - refine (resize_preserves slope_cached I _ x start end_ fill out E).
    intros g s g'. apply slope_cached_push_back.
Qed.

(** ** More on the order of binary64 numbers *)

Lemma SFleb_numbers a b :
  SFleb a b = true -> SFleb a a = true /\ SFleb b b = true.
Proof. destruct a, b; by_float_cases; auto. Qed.

Lemma SFleb_nlt a b : SFleb a b = true -> SFltb b a = false.
Proof. destruct a, b; by_float_cases. Qed.

Lemma SFleb_ltb a b :
  is_number a = true -> is_number b = true -> SFleb a b = negb (SFltb b a).
Proof. destruct a, b; by_float_cases. Qed.



Section FloatOrderMore.

Local Open Scope float_scope.

Lemma leb_numbers a b : (a <=? b) = true -> (a <=? a) = true /\ (b <=? b) = true.
Proof. rewrite !leb_spec. apply SFleb_numbers. Qed.

Lemma leb_nlt a b : (a <=? b) = true -> (b <? a) = false.
Proof. rewrite leb_spec, ltb_spec. apply SFleb_nlt. Qed.

Lemma leb_ltb a b :
  is_nan a = false -> is_nan b = false -> (a <=? b) = negb (b <? a).
Proof.
  rewrite !is_nan_number, leb_spec, ltb_spec. intros Na Nb. apply SFleb_ltb.
  - destruct (is_number (Prim2SF a)); [reflexivity|discriminate].
  - destruct (is_number (Prim2SF b)); [reflexivity|discriminate].
Qed.

Lemma ltb_nan_l a b : is_nan a = true -> (a <? b) = false.
Proof.
  intro N. destruct (a <? b) eqn:L; [|reflexivity].
  rewrite (proj1 (ltb_numbers _ _ L)) in N. discriminate.
Qed.

Lemma ltb_nan_r a b : is_nan b = true -> (a <? b) = false.
Proof.
  intro N. destruct (a <? b) eqn:L; [|reflexivity].
  rewrite (proj2 (ltb_numbers _ _ L)) in N. discriminate.
Qed.



End FloatOrderMore.

(** ** [resize] stays inside [[start, end]] *)

Section Confined.

Local Open Scope float_scope.

Variables start end_ : float.

Lemma confined_push_back (sig sig' : Signal) (s : Sample) :
  Forall (confined start end_) (times sig) -> confined start end_ (time s) -> push_back sig s = Ok sig' ->
  Forall (confined start end_) (times sig').
Proof.
  intros F C E. rewrite (times_push_back _ _ _ E). apply Forall_app. split; [exact F|].
  constructor; [exact C|constructor].
Qed.

Lemma resize_loop_confined (rest : list Sample) :
  forall before sig r, Forall (confined start end_) (times sig) ->
    resize_loop start end_ before rest sig = Ok r -> Forall (confined start end_) (times r).
Proof.
  induction rest as [|i tl IH]; simpl; intros before sig r F E.
  - injection E as <-. exact F.
  - destruct (match tl with [] => false | nxt :: _ => start <? time nxt end).
    { bind_inv E. refine (IH _ _ _ (confined_push_back _ _ _ F _ Eg) Ek).
      left. reflexivity. }
    destruct ((start <=? time i) && (time i <=? end_)) eqn:keep.
    { bind_inv E. refine (IH _ _ _ (confined_push_back _ _ _ F _ Eg) Ek).
      right. right. exact keep. }
    destruct (end_ <? time i); [|exact (IH _ _ _ F E)].
    destruct before as [p|]; [|injection E as <-; exact F].
    destruct (time p <? end_); [|injection E as <-; exact F].
    bind_inv E. refine (IH _ _ _ (confined_push_back _ _ _ F _ Eg) Ek).
    right. left. reflexivity.
Qed.

End Confined.

(** X7.  Whatever the signal, every sample of the signal [resize] returns
    is timed [start], [end] or at a time [t] with [start <= t <= end];
    with [start <= end] every sample is timed inside [[start, end]]. *)
Theorem resize_confines_times (x : Signal) (start end_ fill : float) (r : Signal) :
  resize x start end_ fill = Ok r ->
  (forall s, In s r ->
     time s = start \/ time s = end_ \/
     ((start <=? time s) && (time s <=? end_))%float = true) /\
  ((start <=? end_)%float = true ->
   forall s, In s r -> ((start <=? time s) && (time s <=? end_))%float = true).
Proof.
  intro E.
  assert (F : Forall (confined start end_) (times r)).
  { unfold resize in E. bind_inv E.
    refine (resize_loop_confined start end_ x None g r _ Ek).
    destruct (start <? begin_time x)%float.
    - injection Eg as <-. constructor; [left; reflexivity|constructor].
    - injection Eg as <-. constructor. }
  assert (A : forall s, In s r -> confined start end_ (time s)).
  { intros s I. exact (proj1 (Forall_forall _ _) F (time s) (in_map time _ _ I)). }
  split; [exact A|].
  intros SE s I. destruct (leb_numbers _ _ SE) as (Ss & Ee).
  destruct (A s I) as [->|[->|C]]; [| |exact C].
  - rewrite Ss, SE. reflexivity.
  - rewrite SE, Ee. reflexivity.
Qed.

Lemma resize_confines_times_witness :
  resize ramp (-1)%float 3%float 5%float = Ok ramp_resized /\
  forall s, In s ramp_resized -> ((-1 <=? time s) && (time s <=? 3))%float = true.
Proof.
  assert (E : resize ramp (-1)%float 3%float 5%float = Ok ramp_resized)
    by (vm_compute; reflexivity).
  split; [exact E|].
  refine (proj2 (resize_confines_times ramp (-1)%float 3%float 5%float ramp_resized E) _).
  vm_compute. reflexivity.
Defined.

(** ** Times never decrease *)

(** X8.  In every signal obtained through the constructors, [push_back],
    [simplify], [resize] and [synchronize] (no [shift], no
    [resize_shift]) no sample is timed before its predecessor. *)
Theorem unshifted_times_never_decrease (sig : Signal) :
  constructed_unshifted sig ->
  forall i a b, nth_error sig i = Some a -> nth_error sig (S i) = Some b ->
    (time b <? time a)%float = false.
Proof.
  intros C i a b Ea Eb. apply time_sorted_constructed in C.
  pose proof (linked_nth _ _ C _ _ Ea) as R. rewrite Eb in R. exact R.
Qed.

Lemma unshifted_times_never_decrease_witness :
  resize triangle 0%float 2%float 7%float = Ok triangle_resized /\
  forall i a b, nth_error triangle_resized i = Some a ->
    nth_error triangle_resized (S i) = Some b -> (time b <? time a)%float = false.
Proof.
  assert (E : resize triangle 0%float 2%float 7%float = Ok triangle_resized)
    by (vm_compute; reflexivity).
  split; [exact E|].
  apply unshifted_times_never_decrease.
  apply by_resize with (x := triangle) (start := 0%float) (end_ := 2%float)
    (fill := 7%float).
  - exact (by_arrays _ _ _ _ triangle_built).
  - exact E.
Defined.

(** ** [simplify] on time-sorted signals *)

Section Simplify.

Local Open Scope float_scope.

(** The loop of [simplify] returns: every sample it appends is timed at or
    after the last one it kept. *)
Lemma simplify_loop_returns (rest : list Sample) :
  forall sig, time_sorted rest -> times_are_numbers rest ->
    (sig = [] \/ forall s, In s rest -> (time s <? end_time sig) = false) ->
    exists r, simplify_loop sig rest = Ok r.
Proof.
  induction rest as [|s tl IH]; intros sig L N A; [simpl; eauto|].
  pose proof (linked_tail _ _ _ L) as L'.
  pose proof (numbers_tail _ _ N) as N'.
  assert (push : forall sig', back sig' = Some (appended s) ->
            exists r, simplify_loop sig' tl = Ok r).
  { intros sig' B. apply (IH sig' L' N'). right. intros s' I.
    rewrite (end_time_back _ _ B).
    exact (time_sorted_from_front _ _ L N s' (or_intror I)). }
  simpl. destruct (back sig) as [new_s|] eqn:B.
  - assert (P : exists sig', push_back sig s = Ok sig').
    { apply push_back_at_end.
      - intros ->. discriminate.
      - destruct A as [->|A]; [discriminate|]. apply A. left. reflexivity. }
    destruct P as (sig' & P).
    destruct (negb (interpolate new_s (time s) =? value s)
              || negb (derivative new_s =? derivative s)).
    + rewrite P. simpl. exact (push sig' (back_push_back _ _ _ P)).
    + apply (IH sig L' N'). destruct A as [->|A]; [left; reflexivity|].
      right. intros s' I. apply A. right. exact I.
  - apply back_None in B. subst sig. rewrite push_back_nil. simpl.
    apply push. reflexivity.
Qed.

(** The loop keeps breakpoints of the signal, in their order, and the
    kept signal ends at the time of one of them. *)
Lemma simplify_loop_keeps (x : Signal) (rest : list Sample) :
  forall sig r, incl rest x ->
    incl (points sig) (points x) ->
    (sig = [] \/ exists e, In e x /\ end_time sig = time e) ->
    simplify_loop sig rest = Ok r ->
    incl (points r) (points x) /\
    (r = [] \/ exists e, In e x /\ end_time r = time e).
Proof.
  induction rest as [|s tl IH]; intros sig r I K A E.
  - injection E as <-. auto.
  - assert (I' : incl tl x) by (intros e Ie; apply I; right; exact Ie).
    assert (push : forall sig', push_back sig s = Ok sig' ->
              simplify_loop sig' tl = Ok r ->
              incl (points r) (points x) /\
              (r = [] \/ exists e, In e x /\ end_time r = time e)).
    { intros sig' P E'. apply (IH sig' r I'); [| |exact E'].
      - rewrite (points_push_back _ _ _ P). apply incl_app; [exact K|].
        intros p [<-|[]]. apply in_map. apply I. left. reflexivity.
      - right. exists s. split; [apply I; left; reflexivity|].
        rewrite (end_time_back _ _ (back_push_back _ _ _ P)). reflexivity. }
    simpl in E. destruct (back sig) as [new_s|].
    + destruct (negb (interpolate new_s (time s) =? value s)
                || negb (derivative new_s =? derivative s)).
      * bind_inv E. exact (push _ Eg Ek).
      * exact (IH sig r I' K A E).
    + bind_inv E. exact (push _ Eg Ek).
Qed.

(** The loop keeps the first sample. *)
Lemma simplify_loop_front (rest : list Sample) :
  forall sig r pts, (exists extra, points sig = pts ++ extra) ->
    simplify_loop sig rest = Ok r -> exists extra, points r = pts ++ extra.
Proof.
  induction rest as [|s tl IH]; intros sig r pts G E.
  - injection E as <-. exact G.
  - simpl in E. destruct (back sig) as [new_s|].
    + destruct (negb (interpolate new_s (time s) =? value s)
                || negb (derivative new_s =? derivative s)).
      * bind_inv E. exact (IH _ _ _ (points_grow_push_back _ _ _ _ G Eg) Ek).
      * exact (IH _ _ _ G E).
    + bind_inv E. exact (IH _ _ _ (points_grow_push_back _ _ _ _ G Eg) Ek).
Qed.

End Simplify.

Lemma eqb_sym a b : (a =? b)%float = (b =? a)%float.
Proof.
  rewrite !eqb_spec. destruct (Prim2SF a), (Prim2SF b); by_float_cases.
Qed.

(** X9.  On a time-sorted signal without NaN times [simplify] returns a
    signal whose breakpoints are breakpoints of the signal, that starts
    with the same breakpoint and that ends at the same time. *)
Theorem simplify_keeps_the_domain (x : Signal) :
  time_sorted x -> times_are_numbers x ->
  exists r, simplify x = Ok r /\
    incl (points r) (points x) /\
    option_map point (front r) = option_map point (front x) /\
    (end_time r =? end_time x)%float = true.
Proof.
  intros L N.
  destruct (simplify_loop_returns x [] L N (or_introl eq_refl)) as (g & Eg).
  destruct (simplify_loop_keeps x x [] g (incl_refl x) (incl_nil_l _)
              (or_introl eq_refl) Eg) as (K & A).
  assert (F : option_map point (front g) = option_map point (front x)).
  { destruct x as [|a tl]; [injection Eg as <-; reflexivity|].
    simpl in Eg.
    destruct (simplify_loop_front tl [appended a] g [point a]
                (ex_intro _ [] eq_refl) Eg) as (extra & E).
    destruct g as [|b g]; [discriminate|].
    simpl. f_equal. unfold points in E. simpl in E. congruence. }
  unfold simplify. rewrite Eg. simpl.
  destruct (end_time x =? end_time g)%float eqn:Q; simpl.
  - exists g. split; [reflexivity|]. split; [exact K|]. split; [exact F|].
    rewrite eqb_sym. exact Q.
  - destruct (back x) as [b|] eqn:B.
    2:{ apply back_None in B. subst x. injection Eg as <-. discriminate. }
    destruct g as [|c g'].
    { destruct x as [|a tl]; discriminate. }
    assert (P : exists r, push_back (c :: g') b = Ok r).
    { apply push_back_at_end; [discriminate|].
      destruct A as [A|(e & Ie & ->)]; [discriminate|].
      destruct (time b <? time e)%float eqn:C; [|reflexivity].
      pose proof (time_sorted_to_back _ _ L N B e Ie) as D.
      pose proof (ltb_asym _ _ C). congruence. }
    destruct P as (r & P). exists r. split; [exact P|].
    pose proof (points_push_back _ _ _ P) as E.
    split.
    { rewrite E. apply incl_app; [exact K|].
      intros p [<-|[]]. apply in_map. exact (back_In _ _ B). }
    split.
    { rewrite <- F. destruct r as [|d r']; [discriminate|].
      simpl. f_equal. unfold points in E. simpl in E. congruence. }
    rewrite (end_time_back _ _ (back_push_back _ _ _ P)), (end_time_back _ _ B).
    apply eqb_refl. exact (numbers_In _ _ N (back_In _ _ B)).
Qed.

Lemma plateau_sorted : time_sorted plateau.
Proof. simpl. repeat split. Qed.

Lemma plateau_numbers : times_are_numbers plateau.
Proof. repeat constructor. Qed.

Lemma simplify_keeps_the_domain_witness :
  exists r, simplify plateau = Ok r /\
    incl (points r) (points plateau) /\
    option_map point (front r) = option_map point (front plateau) /\
    (end_time r =? end_time plateau)%float = true.
Proof. exact (simplify_keeps_the_domain plateau plateau_sorted plateau_numbers). Defined.

(** ** [at] up to the end of the signal *)

Section AtInside.

Local Open Scope float_scope.

Lemma increasing_from_front (a : Sample) (r : Signal) :
  time_increasing (a :: r) -> forall s, In s r -> (time a <? time s) = true.
Proof.
  revert a. induction r as [|b r IH]; intros a L s I; [destruct I|].
  destruct L as (ab & L). simpl in ab. destruct I as [<-|I]; [exact ab|].
  exact (ltb_trans _ _ _ ab (IH b L s I)).
Qed.

(** In a signal with increasing times [lower_bound] finds each sample at
    its own time. *)
Lemma lower_bound_breakpoint (sig : Signal) :
  forall k s, time_increasing sig -> nth_error sig k = Some s ->
    lower_bound sig (time s) = k.
Proof.
  induction sig as [|a r IH]; intros k s L E; [destruct k; discriminate|].
  destruct k as [|k]; simpl in E.
  - injection E as <-. simpl. rewrite ltb_irrefl. reflexivity.
  - simpl. rewrite (increasing_from_front _ _ L s (nth_error_In _ _ E)).
    f_equal. exact (IH k s (linked_tail _ _ _ L) E).
Qed.

Lemma lower_bound_le (sig : Signal) (t : float) : (lower_bound sig t <= length sig)%nat.
Proof.
  induction sig as [|a r IH]; simpl; [lia|]. destruct (time a <? t); simpl; lia.
Qed.

(** On a time-sorted signal without NaN times the postcondition of
    [std::lower_bound] (every sample before the position is timed before
    [t], the sample at the position, if any, is not) leaves one position:
    whatever the search does, it returns [lower_bound sig t]. *)
Lemma lower_bound_unique (sig : Signal) (t : float) (p : nat) :
  time_sorted sig -> times_are_numbers sig -> (p <= length sig)%nat ->
  (forall i s, (i < p)%nat -> nth_error sig i = Some s -> (time s <? t) = true) ->
  (forall s, nth_error sig p = Some s -> (time s <? t) = false) ->
  p = lower_bound sig t.
Proof.
  intros L N Le Before At.
  destruct (lower_bound_partition sig t L N) as (Lo & Hi).
  pose proof (lower_bound_le sig t) as Le'.
  destruct (Nat.lt_trichotomy p (lower_bound sig t)) as [Lt|[Eq|Gt]]; [|exact Eq|].
  - destruct (nth_error sig p) as [s|] eqn:E.
    + specialize (At s eq_refl). rewrite (Lo p s Lt E) in At. discriminate.
    + apply nth_error_None in E. lia.
  - destruct (nth_error sig (lower_bound sig t)) as [s|] eqn:E.
    + specialize (Before _ s Gt E). rewrite (Hi _ s (le_n _) E) in Before.
      discriminate.
    + apply nth_error_None in E. lia.
Qed.

End AtInside.

(** X10.  In a signal whose times strictly increase, [at] at the time of a
    sample returns that sample, cached derivative included. *)
Theorem at_breakpoint_returns_the_sample (sig : Signal) (k : nat) (s : Sample) :
  time_increasing sig -> nth_error sig k = Some s -> is_nan (time s) = false ->
  at_ sig (time s) = Ok s.
Proof.
  intros L E N. unfold at_.
  assert (G : ((time s <? begin_time sig) && (end_time sig <? time s))%float = false).
  { destruct sig as [|a r]; [destruct k; discriminate|].
    change (begin_time (a :: r)) with (time a).
    destruct k as [|k]; simpl in E.
    - injection E as <-. rewrite ltb_irrefl. reflexivity.
    - rewrite (ltb_asym _ _ (increasing_from_front _ _ L s (nth_error_In _ _ E))).
      reflexivity. }
  rewrite G, (lower_bound_breakpoint sig k s L E). unfold deref. rewrite E. simpl.
  rewrite (eqb_refl _ N). reflexivity.
Qed.

Lemma at_breakpoint_returns_the_sample_witness :
  at_ triangle 1%float = Ok (mkSample 1 1 (-1))%float.
Proof.
  refine (at_breakpoint_returns_the_sample triangle 1 (mkSample 1 1 (-1))%float _ _ _).
  - simpl. repeat split.
  - reflexivity.
  - reflexivity.
Defined.

(** X11.  On a non-empty time-sorted signal without NaN times, [at]
    returns for every [t] that is not past [end_time] (before [begin_time]
    and NaN included): [lower_bound] finds a sample [it] not timed before
    [t], and the result is [it] when [it.time == t] and otherwise the
    sample at [t] on the line through [it]. *)
Theorem at_returns_up_to_end (sig : Signal) (t : float) :
  time_sorted sig -> times_are_numbers sig -> sig <> [] ->
  (end_time sig <? t)%float = false ->
  exists it, nth_error sig (lower_bound sig t) = Some it /\
    (time it <? t)%float = false /\
    at_ sig t = Ok (if (time it =? t)%float then it
                    else mkSample t (interpolate it t) (derivative it)).
Proof.
  intros L N NE E.
  destruct (lower_bound_partition sig t L N) as (Lo & Hi).
  destruct (back sig) as [l|] eqn:B; [|apply back_None in B; contradiction].
  destruct (back_nth _ _ B) as (Bn & _).
  rewrite (end_time_back _ _ B) in E.
  assert (I : (lower_bound sig t < length sig)%nat).
  { pose proof (lower_bound_le sig t) as Le.
    destruct (Nat.eq_dec (lower_bound sig t) (length sig)) as [Q|Q]; [|lia].
    assert (Z : (length sig - 1 < lower_bound sig t)%nat).
    { destruct sig; [contradiction|]. simpl in *. lia. }
    rewrite (Lo _ _ Z Bn) in E. discriminate. }
  destruct (nth_error sig (lower_bound sig t)) as [it|] eqn:D.
  2:{ apply nth_error_None in D. lia. }
  exists it. split; [reflexivity|]. split; [exact (Hi _ _ (le_n _) D)|].
  unfold at_. rewrite (at_guard_dead sig t L N). unfold deref. rewrite D. simpl.
  destruct (time it =? t)%float; reflexivity.
Qed.

Lemma at_returns_up_to_end_witness :
  exists it, nth_error ramp (lower_bound ramp (-1)%float) = Some it /\
    (time it <? -1)%float = false /\
    at_ ramp (-1)%float =
    Ok (if (time it =? -1)%float then it
        else mkSample (-1)%float (interpolate it (-1)%float) (derivative it)).
Proof.
  apply (at_returns_up_to_end ramp (-1)%float ramp_sorted ramp_numbers).
  - discriminate.
  - vm_compute. reflexivity.
Defined.

(** ** [begin_at] and [end_at] *)

Lemma begin_at_lower_bound (sig : Signal) (s : float) :
  begin_at sig s = lower_bound sig s.
Proof.
  unfold begin_at. destruct (s <=? begin_time sig)%float eqn:E; [|reflexivity].
  destruct sig as [|a r]; [reflexivity|]. simpl.
  change (begin_time (a :: r)) with (time a) in E.
  rewrite (leb_nlt _ _ E). reflexivity.
Qed.

(** X12.  On a time-sorted signal without NaN times [begin_at(s)] is the
    position of the first sample that is not timed before [s]: every
    sample before it is timed before [s], no sample from it on is. *)
Theorem begin_at_first_not_before (sig : Signal) (s : float) :
  time_sorted sig -> times_are_numbers sig ->
  (begin_at sig s <= length sig)%nat /\
  (forall i a, (i < begin_at sig s)%nat -> nth_error sig i = Some a ->
     (time a <? s)%float = true) /\
  (forall i a, (begin_at sig s <= i)%nat -> nth_error sig i = Some a ->
     (time a <? s)%float = false).
Proof.
  intros L N. rewrite begin_at_lower_bound.
  split; [apply lower_bound_le|]. exact (lower_bound_partition sig s L N).
Qed.

Lemma begin_at_first_not_before_witness :
  (begin_at triangle 1%float <= 3)%nat /\
  (forall i a, (i < begin_at triangle 1%float)%nat -> nth_error triangle i = Some a ->
     (time a <? 1)%float = true) /\
  (forall i a, (begin_at triangle 1%float <= i)%nat -> nth_error triangle i = Some a ->
     (time a <? 1)%float = false).
Proof.
  apply (begin_at_first_not_before triangle 1%float).
  - simpl. repeat split.
  - repeat constructor.
Defined.

(** X13.  [end_at(t)] returns [end()] when [end_time <= t]; for every
    other [t] its loop starts by reading the time of [end()], which is no
    sample: the behaviour is undefined, whatever the signal. *)
Theorem end_at_reads_past_the_end (sig : Signal) (t : float) :
  end_at sig t = if (end_time sig <=? t)%float then Ok (length sig) else Undefined.
Proof.
  unfold end_at. destruct (end_time sig <=? t)%float; [reflexivity|].
  cbn [end_at_loop]. unfold deref.
  rewrite (proj2 (nth_error_None sig (length sig)) (le_n _)). reflexivity.
Qed.

(** ** [synchronize] *)

(** X14.  When no time is NaN, [synchronize] terminates; and the two
    signals it returns are time-sorted and keep the derivative cache. *)
Theorem synchronize_halts_with_signals (x y : Signal) :
  times_are_numbers x -> times_are_numbers y ->
  synchronize x y <> Diverge /\
  forall x' y', synchronize x y = Ok (x', y') ->
    (time_sorted x' /\ slope_cached x') /\ (time_sorted y' /\ slope_cached y').
Proof.
  intros Nx Ny. split; [exact (synchronize_returns x y Nx Ny)|].
  intros x' y' E.
  refine (synchronize_preserves (fun g => time_sorted g /\ slope_cached g)
            (conj I I) _ x y x' y' E).
  intros g s g' (L & C) P. split.
  - exact (time_sorted_push_back _ _ _ L P).
  - exact (slope_cached_push_back _ _ _ C P).
Qed.

Lemma synchronize_halts_with_signals_witness :
  synchronize triangle level <> Diverge /\
  forall x' y', synchronize triangle level = Ok (x', y') ->
    (time_sorted x' /\ slope_cached x') /\ (time_sorted y' /\ slope_cached y').
Proof.
  apply synchronize_halts_with_signals; repeat constructor.
Defined.

(** X15.  [synchronize] reads the sample at [begin()] of both signals
    first: with an empty signal on either side the behaviour is
    undefined. *)
Theorem synchronize_of_empty_signal (z : Signal) :
  synchronize [] z = Undefined /\ synchronize z [] = Undefined.
Proof.
  split; [reflexivity|].
  unfold synchronize. cbv zeta.
  unfold deref at 1. destruct (nth_error z _) as [si|]; [|reflexivity]. cbn [bind].
  match goal with |- context [if ?c then _ else _] => destruct c end.
  - destruct (prev_cases z (lower_bound z (std_max (begin_time z) (begin_time []))))
      as [(p & ->)| ->]; reflexivity.
  - reflexivity.
Qed.

Section SameBegin.

Local Open Scope float_scope.

Lemma eqb_nlt a b : (a =? b) = true -> (a <? b) = false /\ (b <? a) = false.
Proof.
  rewrite eqb_spec, !ltb_spec. destruct (Prim2SF a), (Prim2SF b); by_float_cases; auto.
Qed.

Lemma Forall2_snoc (A B : Type) (R : A -> B -> Prop) l l' a b :
  Forall2 R l l' -> R a b -> Forall2 R (l ++ [a]) (l' ++ [b]).
Proof. intros F r. apply Forall2_app; [exact F|]. constructor; [exact r|constructor]. Qed.

Lemma Forall2_back (R : Sample -> Sample -> Prop) (l l' : list Sample) (a b : Sample) :
  Forall2 R l l' -> back l = Some a -> back l' = Some b -> R a b.
Proof.
  induction 1 as [|x y r r' Rxy F IH]; [discriminate|].
  destruct F as [|x' y' r r' Rxy' F].
  - simpl. intros Ea Eb. injection Ea as <-. injection Eb as <-. exact Rxy.
  - exact IH.
Qed.

(** The loop of [synchronize] appends to both signals at the same time. *)
Lemma sync_loop_same_times (x y : Signal) (fuel : nat) :
  forall i j xv yv xv' yv',
    Forall2 same_time xv yv ->
    sync_loop fuel x y i j xv yv = Ok (xv', yv') -> Forall2 same_time xv' yv'.
Proof.
  induction fuel as [|fuel IH]; intros i j xv yv xv' yv' F E; [discriminate|].
  simpl in E.
  destruct (nth_error x i) as [si|]; [|injection E as <- <-; exact F].
  destruct (nth_error y j) as [sj|]; [|injection E as <- <-; exact F].
  destruct (time si =? time sj) eqn:Q.
  { exact (IH _ _ _ _ _ _ (Forall2_snoc _ _ _ _ _ _ _ F Q) E). }
  destruct (time si <? time sj) eqn:lt.
  { bind_inv E. refine (IH _ _ _ _ _ _ (Forall2_snoc _ _ _ _ _ _ _ F _) Ek).
    exact (eqb_refl _ (proj1 (ltb_numbers _ _ lt))). }
  destruct (time sj <? time si) eqn:gt; [|discriminate].
  bind_inv E. refine (IH _ _ _ _ _ _ (Forall2_snoc _ _ _ _ _ _ _ F _) Ek).
  exact (eqb_refl _ (proj1 (ltb_numbers _ _ gt))).
Qed.

Lemma Forall2_times (xv yv : list Sample) :
  Forall2 same_time xv yv ->
  Forall2 (fun a b => (a =? b) = true) (times xv) (times yv).
Proof. induction 1; simpl; constructor; assumption. Qed.

Lemma lower_bound_begin (sig : Signal) : lower_bound sig (begin_time sig) = O.
Proof.
  destruct sig as [|a r]; [reflexivity|].
  change (begin_time (a :: r)) with (time a). simpl. rewrite ltb_irrefl. reflexivity.
Qed.

End SameBegin.

(** X16.  For two time-sorted signals without NaN times (the ranges that
    [lower_bound] searches are then partitioned) that begin at the same
    time, the signals that [synchronize] returns have the same number of
    samples and, position by position, the same times. *)
Theorem synchronize_same_begin_same_times (x y x' y' : Signal) :
  time_sorted x -> times_are_numbers x ->
  time_sorted y -> times_are_numbers y ->
  begin_time x = begin_time y ->
  synchronize x y = Ok (x', y') ->
  length x' = length y' /\
  Forall2 (fun a b => (a =? b)%float = true) (times x') (times y').
Proof.
  intros _ _ _ _ B E.
  assert (T : Forall2 (fun a b => (a =? b)%float = true) (times x') (times y')).
  { unfold synchronize in E. rewrite <- B in E. unfold std_max in E.
    rewrite ltb_irrefl in E. cbv zeta in E.
    rewrite lower_bound_begin in E. rewrite B in E. rewrite lower_bound_begin in E.
    change (negb (0 =? 0)%nat) with false in E.
    bind_inv E. clear Eg. rewrite Bool.andb_false_r in Ek. cbn [bind] in Ek.
    bind_inv Ek. clear Eg. rewrite Bool.andb_false_r in Ek0. cbn [bind] in Ek0.
    bind_inv Ek0. destruct g1 as (xv, yv).
    apply sync_loop_same_times in Eg; [|constructor].
    destruct (back xv) as [xb|] eqn:Bx; [|discriminate]. cbn [bind] in Ek.
    destruct (back yv) as [yb|] eqn:By; [|discriminate]. cbn [bind] in Ek.
    destruct (eqb_nlt _ _ (Forall2_back _ _ _ _ _ Eg Bx By)) as (xy & yx).
    rewrite yx in Ek. rewrite By in Ek. cbn [bind] in Ek. rewrite xy in Ek.
    bind_inv Ek. bind_inv Ek0. injection Ek as <- <-.
    rewrite (times_Signal_of _ _ Eg0), (times_Signal_of _ _ Eg1).
    exact (Forall2_times _ _ Eg). }
  split; [|exact T].
  pose proof (Forall2_length T) as Len. unfold times in Len.
  rewrite !length_map in Len. exact Len.
Qed.

Lemma synchronize_same_begin_same_times_witness :
  length [mkSample 0 0 1; mkSample 1 1 (-1); mkSample 2 0 0]%float =
  length level_synchronized /\
  Forall2 (fun a b => (a =? b)%float = true)
    (times [mkSample 0 0 1; mkSample 1 1 (-1); mkSample 2 0 0]%float)
    (times level_synchronized).
Proof.
  apply (synchronize_same_begin_same_times triangle level).
  - simpl. repeat split.
  - repeat constructor.
  - simpl. repeat split.
  - repeat constructor.
  - reflexivity.
  - vm_compute. reflexivity.
Defined.

(** ** Comparing and negating samples *)

(** X17.  The comparison operators of [Sample] look at the values only,
    and [<=] and [>=] are the negations of [>] and [<]: of any two samples
    one is [<=] the other; on values that are numbers [<=] and [>=] are
    those of the values; and when a value is NaN both [<=] and [>=]
    hold although neither [<] nor [>] does. *)
Theorem sample_order_reads_values (a b : Sample) :
  Sample_le a b || Sample_le b a = true /\
  (is_nan (value a) = false -> is_nan (value b) = false ->
   Sample_le a b = (value a <=? value b)%float /\
   Sample_ge a b = (value b <=? value a)%float) /\
  (is_nan (value a) = true \/ is_nan (value b) = true ->
   Sample_lt a b = false /\ Sample_gt a b = false /\
   Sample_le a b = true /\ Sample_ge a b = true).
Proof.
  unfold Sample_le, Sample_ge, Sample_gt, Sample_lt. split; [|split].
  - destruct (value b <? value a)%float eqn:ba; [|reflexivity].
    rewrite (ltb_asym _ _ ba). reflexivity.
  - intros Na Nb. rewrite (leb_ltb _ _ Na Nb), (leb_ltb _ _ Nb Na). split; reflexivity.
  - intros [N|N].
    + rewrite (ltb_nan_l _ (value b) N), (ltb_nan_r (value b) _ N). repeat split.
    + rewrite (ltb_nan_l _ (value a) N), (ltb_nan_r (value a) _ N). repeat split.
Qed.


(** ** What [resize] returns for [start <= end] *)

Lemma SFleb_eqb a b : SFleb a b = true -> SFltb a b = false -> SFeqb b a = true.
Proof. destruct a, b; by_float_cases. Qed.

Lemma SFeqb_nlt a b c : SFeqb a b = true -> SFltb c b = false -> SFltb c a = false.
Proof. destruct a, b, c; by_float_cases. Qed.

Lemma SFleb_ltb_trans a b c : SFleb a b = true -> SFltb b c = true -> SFltb a c = true.
Proof. destruct a, b, c; by_float_cases. Qed.

Section Collapse.

Local Open Scope float_scope.

Lemma leb_eqb a b : (a <=? b) = true -> (a <? b) = false -> (b =? a) = true.
Proof. rewrite leb_spec, ltb_spec, eqb_spec. apply SFleb_eqb. Qed.

Lemma eqb_nlt_l a b c : (a =? b) = true -> (c <? b) = false -> (c <? a) = false.
Proof. rewrite eqb_spec, !ltb_spec. apply SFeqb_nlt. Qed.

Lemma leb_ltb_trans a b c : (a <=? b) = true -> (b <? c) = true -> (a <? c) = true.
Proof. rewrite leb_spec, !ltb_spec. apply SFleb_ltb_trans. Qed.

Variables start end_ : float.

Hypothesis start_le_end : (start <=? end_) = true.

Lemma start_at_start : at_start start start.
Proof.
  apply leb_eqb; [exact (proj1 (leb_numbers _ _ start_le_end))|apply ltb_irrefl].
Qed.

Lemma push_back_after_start (sig : Signal) (s : Sample) :
  Forall (at_start start) (times sig) -> (time s <? start) = false ->
  exists sig', push_back sig s = Ok sig' /\ times sig' = times sig ++ [time s].
Proof.
  intros F L.
  assert (P : exists sig', push_back sig s = Ok sig').
  { destruct (back sig) as [l|] eqn:B.
    - apply push_back_at_end; [intros ->; discriminate|].
      rewrite (end_time_back _ _ B). refine (eqb_nlt_l _ _ _ _ L).
      exact (proj1 (Forall_forall _ _) F _ (in_map time _ _ (back_In _ _ B))).
    - apply back_None in B. subst sig. rewrite push_back_nil. eauto. }
  destruct P as (sig' & P). exists sig'. split; [exact P|].
  exact (times_push_back _ _ _ P).
Qed.

(** Every sample that has a successor is replaced by a sample at [start]
    or, at best, kept when it is timed [start] itself: only the last
    sample of the signal can give a sample timed after [start]. *)
Lemma resize_loop_collapses (rest : list Sample) :
  forall before sig, time_sorted rest -> times_are_numbers rest ->
    Forall (at_start start) (times sig) ->
    exists r ts tl, resize_loop start end_ before rest sig = Ok r /\
      times r = ts ++ tl /\ Forall (at_start start) ts /\ (length tl <= 1)%nat.
Proof.
  induction rest as [|i tl IH]; intros before sig L N F.
  { exists sig, (times sig), []. rewrite app_nil_r. simpl. auto. }
  pose proof (linked_tail _ _ _ L) as L'.
  pose proof (numbers_tail _ _ N) as N'.
  rewrite resize_loop_cons. destruct tl as [|n tl'].
  - destruct ((start <=? time i) && (time i <=? end_)) eqn:keep.
    { apply andb_prop in keep. destruct keep as (si & _).
      destruct (push_back_after_start sig i F (leb_nlt _ _ si)) as (sig' & P & T).
      rewrite P. exists sig', (times sig), [time i]. simpl. auto. }
    destruct (end_ <? time i).
    2:{ exists sig, (times sig), []. rewrite app_nil_r. simpl. auto. }
    destruct before as [p|].
    2:{ exists sig, (times sig), []. rewrite app_nil_r. simpl. auto. }
    destruct (time p <? end_).
    2:{ exists sig, (times sig), []. rewrite app_nil_r. simpl. auto. }
    destruct (push_back_after_start sig (Sample2 end_ (interpolate p end_)) F
                (leb_nlt _ _ start_le_end)) as (sig' & P & T).
    rewrite P. exists sig', (times sig), [end_]. simpl. auto.
  - destruct L as (ni & _). simpl in ni.
    pose proof (numbers_In _ _ N' (or_introl eq_refl)) as Nn.
    destruct (start <? time n) eqn:sn.
    { destruct (push_back_after_start sig (Sample2 start (interpolate i start)) F
                  (ltb_irrefl start)) as (sig' & P & T).
      rewrite P. cbn [bind]. apply (IH (Some i) sig' L' N').
      rewrite T. apply Forall_app. split; [exact F|].
      constructor; [exact start_at_start|constructor]. }
    pose proof (nlt_trans _ _ _ Nn ni sn) as si.
    destruct ((start <=? time i) && (time i <=? end_)) eqn:keep.
    { apply andb_prop in keep. destruct keep as (le & _).
      destruct (push_back_after_start sig i F (leb_nlt _ _ le)) as (sig' & P & T).
      rewrite P. cbn [bind]. apply (IH (Some i) sig' L' N').
      rewrite T. apply Forall_app. split; [exact F|].
      constructor; [exact (leb_eqb _ _ le si)|constructor]. }
    destruct (end_ <? time i) eqn:ei.
    { rewrite (leb_ltb_trans _ _ _ start_le_end ei) in si. discriminate. }
    exact (IH (Some i) sig L' N' F).
Qed.

End Collapse.

(** X19.  For [start <= end], on a time-sorted signal without NaN times,
    [resize] returns, and every sample of the result except the last is
    timed [start]: a sample of the signal that has a successor timed after
    [start] is replaced by a sample interpolated at [start]. *)
Theorem resize_collapses_to_start (x : Signal) (start end_ fill : float) :
  time_sorted x -> times_are_numbers x -> (start <=? end_)%float = true ->
  exists r, resize x start end_ fill = Ok r /\
    forall i s, nth_error r i = Some s -> (S i < length r)%nat ->
      (time s =? start)%float = true.
Proof.
  intros L N SE. unfold resize.
  assert (G : exists g, (if (start <? begin_time x)%float
                         then push_back [] (mkSample start fill 0%float)
                         else Ok []) = Ok g /\ Forall (at_start start) (times g)).
  { destruct (start <? begin_time x)%float.
    - eexists. split; [reflexivity|].
      constructor; [exact (start_at_start start end_ SE)|constructor].
    - eexists. split; [reflexivity|constructor]. }
  destruct G as (g & -> & F). cbn [bind].
  destruct (resize_loop_collapses start end_ SE x None g L N F)
    as (r & ts & tl & E & T & Fts & Len).
  exists r. split; [exact E|].
  intros i s Ei Li.
  assert (Lr : length r = (length ts + length tl)%nat).
  { rewrite <- length_app, <- T. unfold times. rewrite length_map. reflexivity. }
  assert (Et : nth_error ts i = Some (time s)).
  { rewrite <- (nth_error_app1 ts tl) by lia. rewrite <- T.
    unfold times. rewrite nth_error_map, Ei. reflexivity. }
  exact (proj1 (Forall_forall _ _) Fts _ (nth_error_In _ _ Et)).
Qed.

Lemma resize_collapses_to_start_witness :
  exists r, resize triangle 0%float 2%float 7%float = Ok r /\
    forall i s, nth_error r i = Some s -> (S i < length r)%nat ->
      (time s =? 0)%float = true.
Proof.
  apply (resize_collapses_to_start triangle 0%float 2%float 7%float).
  - simpl. repeat split.
  - repeat constructor.
  - vm_compute. reflexivity.
Defined.
